(** * rlget: a rate-limited parallel downloader

    A shallow embedding of [rlget/rate_limiter.py], [rlget/utils.py] and
    [rlget/downloader.py], and the properties of the retry loop, the token
    bucket and the file-name helpers.

    Conventions of the embedding.
    - Python [float] values (rates, token counts, clock readings, delays)
      are exact rationals [Q]: rounding, infinities and NaN are outside the
      model.  Python [min]/[max] are [Qmin]/[Qmax], which pick the same
      argument as Python does on ties.
    - Python [int] values ([retries], [attempts], HTTP status codes) are [Z].
    - Python [str] values are [string]s, read as UTF-8 byte sequences;
      [str.strip] and [re.IGNORECASE] are modelled on the ASCII range.
    - What the program reads from the outside (the clock, the server's
      answers, the random draws, the files that exist) is an explicit
      argument of the function that reads it.
    - An exception that leaves a function is a value [inl e] of a sum type. *)

From Stdlib Require Import QArith Qminmax Qpower ZArith Lia Lqa List String Ascii.
From Stdlib Require Import DecimalString DecimalPos DecimalZ Permutation.
From stdpp Require Import gmap strings.

Local Open Scope string_scope.
Local Open Scope Z_scope.

(** Python exceptions that matter here: the class name and the message. *)
Inductive exc : Type :=
  | Exc (type_name : string) (msg : string).

Definition ValueError (msg : string) : exc := Exc "ValueError" msg.

(** A computation that either raises or returns. *)
Definition raises (A : Type) : Type := (exc + A)%type.

(** ** rlget/rate_limiter.py *)
Module RateLimiter.

(** The fields of a [RateLimiter] object.  The condition variable
    [_lock] only makes the bodies below atomic; it carries no data. *)
Record t : Type := mk {
  rate : Q;
  capacity : Q;
  _tokens : Q;
  _last : Q
}.

(** [RateLimiter.__init__]; [now] is the reading of
    [time.perf_counter()]. *)
Definition __init__ (rate : Q) (capacity : option Q) (now : Q) : raises t :=
  if Qle_bool rate 0 then
    inl (ValueError "rate must be > 0 (tokens per second)")
  else
    let capacity := match capacity with Some c => c | None => rate end in
    inr {| rate := rate; capacity := capacity;
           _tokens := capacity; _last := now |}.

(** [RateLimiter._refill]. *)
Definition _refill (now : Q) (self : t) : t :=
  let elapsed := (now - _last self)%Q in
  if Qle_bool elapsed 0 then self
  else
    {| rate := rate self; capacity := capacity self;
       _tokens := Qmin (capacity self) (_tokens self + elapsed * rate self)%Q;
       _last := now |}.

(** [self._tokens -= 1.0]. *)
Definition take (self : t) : t :=
  {| rate := rate self; capacity := capacity self;
     _tokens := (_tokens self - 1)%Q; _last := _last self |}.

(** [RateLimiter.try_acquire]. *)
Definition try_acquire (now : Q) (self : t) : t * bool :=
  let self := _refill now self in
  if Qle_bool 1 (_tokens self) then (take self, true)
  else (self, false).


(** [RateLimiter.acquire].  Each turn of its [while True] loop reads the
    clock once; [clock] lists the readings of the successive turns.  The
    result is [true] when a token was taken, and [false] when the caller
    is still waiting after the last reading.  While a caller waits the
    lock is released, so the turns of different callers interleave: a
    turn is the atomic step. *)
Fixpoint acquire (clock : list Q) (self : t) : t * bool :=
  match clock with
  | [] => (self, false)
  | now :: clock =>
      let self := _refill now self in
      if Qle_bool 1 (_tokens self) then (take self, true)
      else acquire clock self
  end.

(** The calls the threads that share one limiter make on it, in the order
    the lock serialises them. *)
Inductive call : Type :=
  | TryAcquire (now : Q)
  | Acquire (clock : list Q).

Definition perform (c : call) (self : t) : t :=
  match c with
  | TryAcquire now => fst (try_acquire now self)
  | Acquire clock => fst (acquire clock self)
  end.

Definition run (calls : list call) (self : t) : t :=
  fold_left (fun s c => perform c s) calls self.


(** What every limiter that [__init__] returned satisfies from then on:
    the rate is positive, the tokens do not exceed the capacity, and they
    are not negative unless the capacity is. *)
Definition sound (self : t) : Prop :=
  (0 < rate self)%Q /\ (_tokens self <= capacity self)%Q /\
  ((0 <= capacity self)%Q -> (0 <= _tokens self)%Q).

End RateLimiter.

(** ** The Python runtime the program calls into

    Library functions whose code is not part of the repository.  The
    program is embedded over any implementation of them; [Py.model] below
    gives executable ones, which the concrete runs name explicitly. *)
Class PyLib : Type := {
  (** [urllib.parse.unquote] *)
  unquote : string -> string;
  (** [urllib.parse.urlparse(url).path]; [urlparse] raises [ValueError]
      on some malformed URLs *)
  urlparse_path : string -> raises string;
  (** [float(s)] on a string, [None] when it raises *)
  float : string -> option Q
}.

(** The [str] methods and operators the program uses. *)
Module Str.

Definition dq : ascii := "034"%char.
Definition LF : ascii := "010"%char.
Definition CR : ascii := "013"%char.

Definition is_empty (s : string) : bool :=
  match s with EmptyString => true | String _ _ => false end.

Fixpoint map (f : ascii -> ascii) (s : string) : string :=
  match s with
  | EmptyString => EmptyString
  | String c s => String (f c) (map f s)
  end.

Fixpoint mem (c : ascii) (s : string) : bool :=
  match s with
  | EmptyString => false
  | String d s => Ascii.eqb c d || mem c s
  end.

(** Whitespace of [str.strip()], on the ASCII range. *)
Definition is_space (c : ascii) : bool :=
  let n := nat_of_ascii c in
  ((9 <=? n)%nat && (n <=? 13)%nat) || ((28 <=? n)%nat && (n <=? 32)%nat).

Fixpoint lstrip (s : string) : string :=
  match s with
  | EmptyString => EmptyString
  | String c s' => if is_space c then lstrip s' else s
  end.

Fixpoint rstrip (s : string) : string :=
  match s with
  | EmptyString => EmptyString
  | String c s' =>
      match rstrip s' with
      | EmptyString => if is_space c then EmptyString else String c EmptyString
      | r => String c r
      end
  end.

Definition strip (s : string) : string := rstrip (lstrip s).

(** [s.replace(a, b)] for one-character [a] and [b]. *)
Definition replace (a b : ascii) (s : string) : string :=
  map (fun c => if Ascii.eqb c a then b else c) s.

(** [s.split(sep)] for a one-character separator. *)
Fixpoint split (sep : ascii) (s : string) : list string :=
  match s with
  | EmptyString => [EmptyString]
  | String c s =>
      if Ascii.eqb c sep then EmptyString :: split sep s
      else match split sep s with
           | [] => [String c EmptyString]
           | w :: ws => String c w :: ws
           end
  end.

(** [s.rfind(c)], [None] for -1. *)
Fixpoint rfind (c : ascii) (s : string) : option nat :=
  match s with
  | EmptyString => None
  | String d s' =>
      match rfind c s' with
      | Some i => Some (S i)
      | None => if Ascii.eqb d c then Some 0%nat else None
      end
  end.

Fixpoint take (n : nat) (s : string) : string :=
  match n, s with
  | S n, String c s => String c (take n s)
  | _, _ => EmptyString
  end.

Fixpoint drop (n : nat) (s : string) : string :=
  match n, s with
  | S n, String _ s => drop n s
  | _, _ => s
  end.

(** [str(i)] for an [int]. *)
Definition of_int (i : Z) : string := NilZero.string_of_int (Z.to_int i).

(** ASCII lower case. *)
Definition lower (c : ascii) : ascii :=
  let n := nat_of_ascii c in
  if ((65 <=? n)%nat && (n <=? 90)%nat) then ascii_of_nat (n + 32) else c.

End Str.

(** ** The part of [re] the program uses

    Patterns whose quantifiers apply to one-character atoms, with Python's
    backtracking order: alternatives left to right, quantifiers greedy. *)
Module Re.

Inductive atom : Type :=
  | Lit (c : ascii)               (* the character, under the flags *)
  | Dot                           (* [.]: anything but a newline *)
  | NoneOf (cs : list ascii).     (* [[^...]] *)

Inductive quant : Type := One | Opt | Star | Plus.

Record item : Type := Item {
  it_atom : atom;
  it_quant : quant;
  it_group : option nat           (* the capture group around the item *)
}.

(** A pattern: the alternatives of its top-level [|], and
    [re.IGNORECASE]. *)
Record pattern : Type := Pattern {
  alternatives : list (list item);
  ignorecase : bool
}.

(** The groups that took part in a match. *)
Definition match_ : Type := list (nat * string).

Definition group (m : match_) (k : nat) : option string :=
  snd <$> List.find (fun g => Nat.eqb (fst g) k) m.

Definition accepts (ic : bool) (a : atom) (c : ascii) : bool :=
  match a with
  | Lit d => if ic then Ascii.eqb (Str.lower c) (Str.lower d) else Ascii.eqb c d
  | Dot => negb (Ascii.eqb c Str.LF)
  | NoneOf cs => negb (existsb (Ascii.eqb c) cs)
  end.

(** Length of the longest prefix of [s] made of accepted characters. *)
Fixpoint run (ic : bool) (a : atom) (s : string) : nat :=
  match s with
  | EmptyString => 0%nat
  | String c s => if accepts ic a c then S (run ic a s) else 0%nat
  end.

(** [first_down f lo n] is the first success of [f] at [lo + n],
    [lo + n - 1], ..., [lo]. *)
Fixpoint first_down {A} (f : nat -> option A) (lo n : nat) : option A :=
  match f (lo + n)%nat with
  | Some r => Some r
  | None => match n with
            | O => None
            | S n => first_down f lo n
            end
  end.

Definition capture (g : option nat) (text : string) (m : match_) : match_ :=
  match g with
  | Some k => (k, text) :: m
  | None => m
  end.

(** Match the items in sequence at the start of [s]. *)
Fixpoint match_items (ic : bool) (items : list item) (s : string)
  : option match_ :=
  match items with
  | [] => Some []
  | it :: items =>
      let n := run ic (it_atom it) s in
      let continue k :=
        capture (it_group it) (Str.take k s)
          <$> match_items ic items (Str.drop k s) in
      match it_quant it with
      | One => if (1 <=? n)%nat then continue 1%nat else None
      | Opt => first_down continue 0 (Nat.min 1 n)
      | Star => first_down continue 0 n
      | Plus => if (1 <=? n)%nat then first_down continue 1 (n - 1) else None
      end
  end.

Fixpoint match_alternatives (ic : bool) (alts : list (list item)) (s : string)
  : option match_ :=
  match alts with
  | [] => None
  | a :: alts =>
      match match_items ic a s with
      | Some m => Some m
      | None => match_alternatives ic alts s
      end
  end.

(** [pattern.search(s)]: the match at the leftmost position that has
    one. *)
Fixpoint search (p : pattern) (s : string) : option match_ :=
  match match_alternatives (ignorecase p) (alternatives p) s with
  | Some m => Some m
  | None => match s with
            | EmptyString => None
            | String _ s => search p s
            end
  end.

(** Literal text. *)
Fixpoint text (s : string) : list item :=
  match s with
  | EmptyString => []
  | String c s => Item (Lit c) One None :: text s
  end.

End Re.

(** ** The part of [pathlib] and [os.path] the program uses (POSIX flavour) *)
Module Pathlib.

(** A path as [pathlib] keeps it: the root ([/], [//] or none) and the
    components after it. *)
Record Path : Type := mkPath {
  root : string;
  names : list string
}.

#[global] Instance Path_eq_dec : EqDecision Path.
Proof. solve_decision. Defined.

Definition slash : ascii := "/"%char.

(** Number of leading slashes. *)
Fixpoint leading_slashes (s : string) : nat :=
  match s with
  | String c s' => if Ascii.eqb c slash then S (leading_slashes s') else 0%nat
  | EmptyString => 0%nat
  end.

(** A component survives parsing unless it is empty or a lone dot. *)
Definition kept (w : string) : bool :=
  negb (Str.is_empty w) && negb (String.eqb w ".").

(** [Path(s)]: exactly two leading slashes are a root of their own, empty
    and [.] components are dropped, [..] is kept. *)
Definition parse (s : string) : Path :=
  {| root := match leading_slashes s with
             | 0%nat => EmptyString
             | 2%nat => "//"
             | _ => "/"
             end;
     names := List.filter kept (Str.split slash s) |}.

(** [p / s] *)
Definition joinpath (p : Path) (s : string) : Path :=
  let q := parse s in
  if Str.is_empty (root q)
  then {| root := root p; names := (names p ++ names q)%list |}
  else q.

(** [p.name] *)
Definition name (p : Path) : string := List.last (names p) EmptyString.

(** [p.parent] *)
Definition parent (p : Path) : Path :=
  {| root := root p; names := List.removelast (names p) |}.

(** The index where the suffix of a name starts: the last dot, unless it
    is the first or the last character. *)
Definition suffix_start (name : string) : option nat :=
  match Str.rfind "."%char name with
  | Some i =>
      if ((0 <? i)%nat && (i <? String.length name - 1)%nat)%bool
      then Some i else None
  | None => None
  end.

(** [p.suffix] *)
Definition suffix (p : Path) : string :=
  match suffix_start (name p) with
  | Some i => Str.drop i (name p)
  | None => EmptyString
  end.

(** [p.stem] *)
Definition stem (p : Path) : string :=
  match suffix_start (name p) with
  | Some i => Str.take i (name p)
  | None => name p
  end.

(** The file system as [Path.exists] sees it: the paths that exist. *)
Definition exists_ (fs : list Path) (p : Path) : bool := bool_decide (p ∈ fs).

(** Whether [p] names an entry directly inside the directory [dir]: the
    components of [dir] and one more, which does not climb back out. *)
Definition is_direct_child (dir p : Path) : bool :=
  match List.rev (names p) with
  | [] => false
  | n :: front =>
      bool_decide (root p = root dir)
      && bool_decide (List.rev front = names dir)
      && negb (String.eqb n "..")
  end.

(** [os.path.basename] *)
Definition basename (p : string) : string :=
  match Str.rfind slash p with
  | Some i => Str.drop (S i) p
  | None => p
  end.

End Pathlib.

(** ** rlget/utils.py *)
Module Utils.
Import Pathlib.

(** The pattern [_filename_re], compiled with [re.IGNORECASE].  Its first
    alternative is the text [filename*=], then [.*], two single quotes and
    the group 1 [([^;]+)]; its second is the text [filename=], an optional
    double quote, the group 2 (one or more characters other than a double
    quote and [;]) and an optional double quote. *)
Definition _filename_re : Re.pattern :=
  let quote := "'"%char in
  {| Re.alternatives :=
       [ (Re.text "filename*="
            ++ [ Re.Item Re.Dot Re.Star None;
                 Re.Item (Re.Lit quote) Re.One None;
                 Re.Item (Re.Lit quote) Re.One None;
                 Re.Item (Re.NoneOf [";"%char]) Re.Plus (Some 1%nat) ])%list;
         (Re.text "filename="
            ++ [ Re.Item (Re.Lit Str.dq) Re.Opt None;
                 Re.Item (Re.NoneOf [Str.dq; ";"%char]) Re.Plus (Some 2%nat);
                 Re.Item (Re.Lit Str.dq) Re.Opt None ])%list ];
     Re.ignorecase := true |}.

(** The nine characters of the class that [sanitize_filename] hands to
    [re.sub]: backslash, slash, colon, star, question mark, double quote,
    the two angle brackets and the bar. *)
Definition illegal : list ascii :=
  ["\"; "/"; ":"; "*"; "?"; Str.dq; "<"; ">"; "|"]%char.

Definition is_illegal (c : ascii) : bool := existsb (Ascii.eqb c) illegal.

(** [sanitize_filename] *)
Definition sanitize_filename (name : string) : string :=
  let name := Str.replace Str.CR " " (Str.replace Str.LF " " (Str.strip name)) in
  let name := Str.map (fun c => if is_illegal c then "_"%char else c) name in
  if Str.is_empty name then "download" else name.

(** Truth value of an optional string: [None] and the empty string are
    false. *)
Definition truthy (s : option string) : bool :=
  match s with
  | Some s => negb (Str.is_empty s)
  | None => false
  end.

(** [a or b] *)
Definition or_ (a b : option string) : option string :=
  if truthy a then a else b.

Section WithRuntime.
Context {lib : PyLib}.

(** Steps 2 and 3 of [guess_filename]: the name from the URL path, or
    the fallback. *)
Definition name_from_url (url default : string) : raises string :=
  match urlparse_path url with
  | inl e => inl e
  | inr path =>
      let name := basename path in
      if Str.is_empty name then inr default
      else inr (sanitize_filename (unquote name))
  end.

(** The candidate of step 1: what the header gives, if anything. *)
Definition header_candidate (headers : option (gmap string string))
  : option string :=
  match headers with
  | None => None
  | Some headers =>
      if bool_decide (headers = ∅) then None
      else
        let cd := or_ (headers !! "Content-Disposition")
                      (headers !! "content-disposition") in
        if truthy cd then
          match Re.search _filename_re (default EmptyString cd) with
          | Some m =>
              let candidate := or_ (Re.group m 1) (Re.group m 2) in
              if truthy candidate then candidate else None
          | None => None
          end
        else None
  end.

(** [guess_filename] *)
Definition guess_filename (url : string)
    (headers : option (gmap string string)) (default : string)
  : raises string :=
  match header_candidate headers with
  | Some candidate => inr (sanitize_filename (unquote candidate))
  | None => name_from_url url default
  end.

End WithRuntime.

(** A name is clean when it is not empty and holds none of the nine
    characters that [sanitize_filename] replaces. *)
Definition clean (name : string) : Prop :=
  name <> EmptyString /\
  forall c, is_illegal c = true -> Str.mem c name = false.

(** The header of the test suite: [attachment; filename=] and the name
    between double quotes. *)
Definition attachment (name : string) : gmap string string :=
  {[ "Content-Disposition" :=
       "attachment; filename=" ++ String Str.dq name
         ++ String Str.dq EmptyString ]}.

(** The number between brackets, [({i})]. *)
Definition mark (i : Z) : string := "(" ++ Str.of_int i ++ ")".

(** The formatted name [{stem}({i}){suffix}]. *)
Definition numbered (stem suffix : string) (i : Z) : string :=
  stem ++ "(" ++ Str.of_int i ++ ")" ++ suffix.

(** The candidate of turn [i]: [parent] joined with the numbered name. *)
Definition candidate (path : Path) (i : Z) : Path :=
  joinpath (parent path) (numbered (stem path) (suffix path) i).

(** The [while True] loop of [dedupe_path], for at most [fuel] turns;
    [None] when the turns run out. *)
Fixpoint dedupe_loop (fs : list Path) (path : Path) (i : Z) (fuel : nat)
  : option Path :=
  match fuel with
  | O => None
  | S fuel =>
      let candidate := candidate path i in
      if negb (exists_ fs candidate) then Some candidate
      else dedupe_loop fs path (i + 1) fuel
  end.

(** [dedupe_path], over the paths [fs] that exist.  One more turn than
    there are existing paths is always enough. *)
Definition dedupe_path (fs : list Path) (path : Path) : option Path :=
  if negb (exists_ fs path) then Some path
  else dedupe_loop fs path 1 (S (List.length fs)).

End Utils.

(** ** Executable models of the library functions

    Used for the concrete runs only.  [unquote] decodes percent escapes
    byte by byte, which is what [urllib.parse.unquote] does whenever the
    decoded bytes are valid UTF-8.  [urlparse_path] follows [urlsplit] and
    [urlparse]: surrounding control characters, scheme, network location,
    fragment, query and parameters are cut off in that order.  [float]
    reads plain decimal numerals with an optional sign and fraction. *)
Module Py.

Definition hex_value (c : ascii) : option nat :=
  let n := nat_of_ascii c in
  if ((48 <=? n) && (n <=? 57))%nat then Some (n - 48)%nat
  else if ((65 <=? n) && (n <=? 70))%nat then Some (n - 55)%nat
  else if ((97 <=? n) && (n <=? 102))%nat then Some (n - 87)%nat
  else None.

Fixpoint unquote (s : string) : string :=
  match s with
  | EmptyString => EmptyString
  | String c s1 =>
      if Ascii.eqb c "%" then
        match s1 with
        | String a (String b rest) =>
            match hex_value a, hex_value b with
            | Some h, Some l => String (ascii_of_nat (16 * h + l)) (unquote rest)
            | _, _ => String c (unquote s1)
            end
        | _ => String c (unquote s1)
        end
      else String c (unquote s1)
  end.

(** [s.find(c)], [None] for -1. *)
Fixpoint find (c : ascii) (s : string) : option nat :=
  match s with
  | EmptyString => None
  | String d s => if Ascii.eqb d c then Some 0%nat else S <$> find c s
  end.

(** [s.split(c, 1)[0]] *)
Definition before (c : ascii) (s : string) : string :=
  match find c s with
  | Some i => Str.take i s
  | None => s
  end.

Fixpoint all (p : ascii -> bool) (s : string) : bool :=
  match s with
  | EmptyString => true
  | String c s => p c && all p s
  end.

Fixpoint remove (p : ascii -> bool) (s : string) : string :=
  match s with
  | EmptyString => EmptyString
  | String c s => if p c then remove p s else String c (remove p s)
  end.

Fixpoint lstrip_while (p : ascii -> bool) (s : string) : string :=
  match s with
  | EmptyString => EmptyString
  | String c s' => if p c then lstrip_while p s' else s
  end.

Definition is_alpha (c : ascii) : bool :=
  let n := nat_of_ascii (Str.lower c) in ((97 <=? n) && (n <=? 122))%nat.

Definition is_digit (c : ascii) : bool :=
  let n := nat_of_ascii c in ((48 <=? n) && (n <=? 57))%nat.

Definition scheme_char (c : ascii) : bool :=
  is_alpha c || is_digit c || Str.mem c "+-.".

Definition uses_params : list string :=
  [EmptyString; "ftp"; "hdl"; "prospero"; "http"; "imap"; "https"; "shttp";
   "rtsp"; "rtspu"; "sip"; "sips"; "mms"; "sftp"; "tel"].

(** The scheme and what follows its colon. *)
Definition split_scheme (url : string) : string * string :=
  match find ":" url, url with
  | Some (S i), String c _ =>
      if is_alpha c && all scheme_char (Str.take (S i) url)
      then (Str.map Str.lower (Str.take (S i) url), Str.drop (S (S i)) url)
      else (EmptyString, url)
  | _, _ => (EmptyString, url)
  end.

(** The end of the network location: the first of [/], [?] and [#]. *)
Fixpoint netloc_length (s : string) : nat :=
  match s with
  | EmptyString => 0%nat
  | String c s => if Str.mem c "/?#" then 0%nat else S (netloc_length s)
  end.

(** [_splitparams(url)[0]] *)
Definition without_params (url : string) : string :=
  match Str.rfind "/" url with
  | Some k =>
      match find ";" (Str.drop k url) with
      | Some j => Str.take (k + j) url
      | None => url
      end
  | None => before ";" url
  end.

Definition urlparse_path (url : string) : raises string :=
  let url := lstrip_while (fun c => (nat_of_ascii c <=? 32)%nat) url in
  let url := remove (fun c => Str.mem c (String "009" (String Str.LF
                                          (String Str.CR EmptyString)))) url in
  let '(scheme, url) := split_scheme url in
  let split_netloc :=
    match url with
    | String "/" (String "/" rest) =>
        let n := netloc_length rest in
        let netloc := Str.take n rest in
        if xorb (Str.mem "[" netloc) (Str.mem "]" netloc)
        then inl (ValueError "Invalid IPv6 URL")
        else inr (Str.drop n rest)
    | _ => inr url
    end in
  match split_netloc with
  | inl e => inl e
  | inr url =>
      let url := before "?" (before "#" url) in
      if bool_decide (scheme ∈ uses_params) && Str.mem ";" url
      then inr (without_params url)
      else inr url
  end.

(** Digits, with at most one point among them, as a fraction. *)
Fixpoint decimal (s : string) (seen_point : bool) (num : Z) (den : positive)
    (digits : nat) : option Q :=
  match s with
  | EmptyString => if (1 <=? digits)%nat then Some (num # den) else None
  | String c s =>
      if is_digit c then
        decimal s seen_point (10 * num + Z.of_nat (nat_of_ascii c - 48))
                (if seen_point then 10 * den else den)%positive (S digits)
      else if Ascii.eqb c "." && negb seen_point then
        decimal s true num den digits
      else None
  end.

Definition float (s : string) : option Q :=
  match Str.strip s with
  | String "-" s => Qopp <$> decimal s false 0 1 0
  | String "+" s => decimal s false 0 1 0
  | s => decimal s false 0 1 0
  end.

Definition model : PyLib :=
  Build_PyLib unquote urlparse_path float.

End Py.

(** ** rlget/downloader.py *)
Module Downloader.
Import Pathlib Utils.

Definition RETRIABLE_STATUS : gset Z := {[429; 500; 502; 503; 504]}.

Record Result : Type := mkResult {
  url : string;
  ok : bool;
  path : option Path;
  status : option Z;
  attempts : Z;
  error : option string
}.

(** The fields of a [DownloadManager].  The thread pool and the print
    lock hold no data of their own. *)
Record DownloadManager : Type := mkManager {
  output_dir : Path;
  retries : Z;
  timeout : Q;
  user_agent : string;
  no_clobber : bool;
  verbose : bool;
  _limiter : RateLimiter.t;
  max_workers : Z
}.

(** [DownloadManager.__init__]; [now] is the clock reading the limiter
    takes.  [ThreadPoolExecutor] rejects a pool without workers.  The
    creation of the output directory is left to the outside. *)
Definition __init__ (output_dir : Path) (rate : Q) (concurrency : Z)
    (retries : Z) (timeout : Q) (user_agent : option string)
    (no_clobber verbose : bool) (now : Q) : raises DownloadManager :=
  match RateLimiter.__init__ rate (Some (Qmax rate 1)) now with
  | inl e => inl e
  | inr limiter =>
      if concurrency <=? 0
      then inl (ValueError "max_workers must be greater than 0")
      else inr {| output_dir := output_dir;
                  retries := retries;
                  timeout := timeout;
                  user_agent :=
                    default "rlget/0.1 (+https://example.local)"
                            (or_ user_agent None);
                  no_clobber := no_clobber;
                  verbose := verbose;
                  _limiter := limiter;
                  max_workers := concurrency |}
  end.

(** [time.sleep]: a negative length is a [ValueError]. *)
Definition time_sleep (secs : Q) : raises Q :=
  if Qle_bool 0 secs then inr secs
  else inl (ValueError "sleep length must be non-negative").

(** [random.uniform(a, b)], from the draw [u] of [random.random()]. *)
Definition uniform (a b u : Q) : Q := (a + (b - a) * u)%Q.

(** The value of [delay] that [_sleep_backoff] logs and sleeps. *)
Definition backoff_delay (attempt : Z) (retry_after : option Q) (u : Q) : Q :=
  match retry_after with
  | Some retry_after => retry_after
  | None =>
      let base := (1 # 2)%Q in
      let delay := (base * 2 ^ (attempt - 1))%Q in
      let delay := (delay + uniform 0 ((1 # 4) * delay) u)%Q in
      Qmin delay 10
  end.

(** [DownloadManager._sleep_backoff]: the time slept, or the exception
    of [time.sleep]. *)
Definition _sleep_backoff (attempt : Z) (retry_after : option Q) (u : Q)
  : raises Q :=
  time_sleep (backoff_delay attempt retry_after u).

(** What the [try] block of one attempt can raise. *)
Inductive raised : Type :=
  | HTTPError (code : Z) (reason : string) (retry_after : option string)
      (* [retry_after]: [e.headers.get("Retry-After")], [None] without
         headers or without that header *)
  | URLError (reason : string)
  | OtherError (e : exc).

(** What the outside answers to one attempt. *)
Inductive reply : Type :=
  | Fails (e : raised)
      (* [Request] or [urlopen] raises *)
  | Responds (status : Z) (headers : gmap string string)
             (fs : list Path) (body : option raised).
      (* [urlopen] returns; [fs] are the paths that exist when the
         destination is chosen; [body] is what opening the file and
         streaming the response raises, if anything *)

(** The outside as one download sees it, by attempt number: the answer
    to the request and the draw of the random generator. *)
Record world : Type := mkWorld {
  reply_at : Z -> reply;
  random_at : Z -> Q
}.

(** How a call ends. *)
Inductive outcome (A : Type) : Type :=
  | Returns (a : A)
  | Raises (e : exc)
  | Hangs.
Arguments Returns {A} a.
Arguments Raises {A} e.
Arguments Hangs {A}.

(** The local variables of [_download_one]. *)
Record locals : Type := mkLocals {
  l_attempts : Z;
  l_last_err : option string;
  l_last_status : option Z
}.

(** How the [try] block ends. *)
Inductive tried : Type :=
  | Done (r : Result)
  | Caught (e : raised)
  | Stuck.

(** How one turn of the [while] loop ends. *)
Inductive turn : Type :=
  | Continue (l : locals) (slept : Q)
  | Break (l : locals)
  | Return (r : Result)
  | Raise (e : exc)
  | Hang.

Section WithRuntime.
Context {lib : PyLib}.

(** The [try] block: the new [last_status] and how the block ends. *)
Definition try_block (self : DownloadManager) (w : world) (url : string)
    (attempts : Z) (last_status : option Z) : option Z * tried :=
  match reply_at w attempts with
  | Fails e => (last_status, Caught e)
  | Responds status hdrs fs body =>
      let last_status := Some status in
      match guess_filename url (Some hdrs) "download" with
      | inl e => (last_status, Caught (OtherError e))
      | inr fname =>
          let out_path := joinpath (output_dir self) fname in
          let out_path :=
            if no_clobber self then dedupe_path fs out_path
            else Some out_path in
          match out_path, body with
          | None, _ => (last_status, Stuck)
          | Some _, Some e => (last_status, Caught e)
          | Some out_path, None =>
              (last_status,
               Done {| url := url; ok := true; path := Some out_path;
                       status := Some status; attempts := attempts;
                       error := None |})
          end
      end
  end.

(** The [Retry-After] value of the [HTTPError] handler. *)
Definition parse_retry_after (ra : option string) : option Q :=
  if truthy ra then float (default EmptyString ra) else None.

(** The tail shared by the three handlers: sleep and go round again. *)
Definition retry (l : locals) (retry_after : option Q) (u : Q) : turn :=
  match _sleep_backoff (l_attempts l) retry_after u with
  | inl e => Raise e
  | inr slept => Continue l slept
  end.

(** One turn of the [while] loop. *)
Definition attempt (self : DownloadManager) (w : world) (url : string)
    (l : locals) : turn :=
  let attempts := l_attempts l + 1 in
  let last_err := l_last_err l in
  let '(last_status, t) :=
    try_block self w url attempts (l_last_status l) in
  match t with
  | Done r => Return r
  | Stuck => Hang
  | Caught (HTTPError code reason ra) =>
      let last_status := Some code in
      let retry_after := parse_retry_after ra in
      if bool_decide (code ∈ RETRIABLE_STATUS) && (attempts <=? retries self)
      then retry (mkLocals attempts last_err last_status) retry_after
                 (random_at w attempts)
      else
        let last_err :=
          Some ("HTTPError " ++ Str.of_int code ++ ": " ++ reason) in
        Break (mkLocals attempts last_err last_status)
  | Caught (URLError reason) =>
      let last_err := Some ("URLError: " ++ reason) in
      if attempts <=? retries self
      then retry (mkLocals attempts last_err last_status) None
                 (random_at w attempts)
      else Break (mkLocals attempts last_err last_status)
  | Caught (OtherError (Exc type_name msg)) =>
      let last_err := Some (type_name ++ ": " ++ msg) in
      if attempts <=? retries self
      then retry (mkLocals attempts last_err last_status) None
                 (random_at w attempts)
      else Break (mkLocals attempts last_err last_status)
  end.

(** The [Result] built after the loop. *)
Definition failed (url : string) (l : locals) : Result :=
  {| url := url; ok := false; path := None;
     status := l_last_status l; attempts := l_attempts l;
     error := l_last_err l |}.

(** The [while attempts <= self.retries] loop, for at most [fuel]
    turns; [Hangs] when the turns run out. *)
Fixpoint loop (self : DownloadManager) (w : world) (url : string)
    (fuel : nat) (l : locals) : outcome Result :=
  match fuel with
  | O => Hangs
  | S fuel =>
      if l_attempts l <=? retries self then
        match attempt self w url l with
        | Continue l _ => loop self w url fuel l
        | Break l => Returns (failed url l)
        | Return r => Returns r
        | Raise e => Raises e
        | Hang => Hangs
        end
      else Returns (failed url l)
  end.






(** Turns that are always enough: one per attempt of the budget, and
    the last test of the loop condition. *)
Definition enough (self : DownloadManager) : nat :=
  S (Z.to_nat (retries self + 1)).

(** [DownloadManager._download_one].  [self._limiter.acquire()] returns
    nothing and raises nothing: it delays the attempt and leaves no
    trace in the result. *)
Definition _download_one (self : DownloadManager) (w : world)
    (url : string) : outcome Result :=
  loop self w url (enough self) (mkLocals 0 None None).

(** Take the [k]-th of the pending futures out (the last one when [k]
    is past the end). *)
Fixpoint take_out {A} (k : nat) (pending : list A) : option (A * list A) :=
  match pending with
  | [] => None
  | x :: rest =>
      match k with
      | O => Some (x, rest)
      | S k =>
          match take_out k rest with
          | Some (y, rest) => Some (y, x :: rest)
          | None => Some (x, rest)
          end
      end
  end.

(** [as_completed(futures)]: the futures in the order they complete.
    [sched] says which of the pending ones completes next. *)
Fixpoint as_completed {A} (sched : list nat) (n : nat) (pending : list A)
  : list A :=
  match n with
  | O => []
  | S n =>
      match take_out (hd 0%nat sched) pending with
      | Some (x, rest) => x :: as_completed (tl sched) n rest
      | None => []
      end
  end.

(** The [for fut in as_completed(futures)] loop: [fut.result()]
    returns the worker's result or raises what the worker raised. *)
Fixpoint gather (futures : list (outcome Result)) (results : list Result)
  : outcome (list Result) :=
  match futures with
  | [] => Returns results
  | Returns r :: futures => gather futures (results ++ [r])%list
  | Raises e :: _ => Raises e
  | Hangs :: _ => Hangs
  end.

(** The URL of the result a future holds (nothing for one that holds no
    result). *)
Definition url_of (future : outcome Result) : string :=
  match future with
  | Returns r => url r
  | _ => EmptyString
  end.

(** [DownloadManager.download_many].  [worlds i] is the outside of the
    [i]-th submitted URL. *)
Definition download_many (self : DownloadManager) (worlds : nat -> world)
    (sched : list nat) (urls : list string) : outcome (list Result) :=
  let futures := imap (fun i u => _download_one self (worlds i) u) urls in
  gather (as_completed sched (List.length futures) futures) [].

End WithRuntime.

End Downloader.

(** ** The endpoints of the test suite, and two more *)
Module Scenario.
Import Pathlib Downloader.

(** The manager of [test_download_retry], with [retries] left open. *)
Definition manager (retries : Z) : DownloadManager :=
  {| output_dir := parse "downloads";
     retries := retries;
     timeout := 5;
     user_agent := "rlget/0.1 (+https://example.local)";
     no_clobber := false;
     verbose := true;
     _limiter := RateLimiter.mk 10 10 10 0;
     max_workers := 1 |}.

Definition unavailable (retry_after : option string) : reply :=
  Fails (HTTPError 503 "Service Unavailable" retry_after).


(** An endpoint that answers 503 with the header [Retry-After: -1]. *)
Definition hasty_endpoint : world :=
  {| reply_at := fun _ => unavailable (Some "-1");
     random_at := fun _ => (1 # 2)%Q |}.

(** Any other path of the test server: status 404. *)
Definition missing_endpoint : world :=
  {| reply_at := fun _ => Fails (HTTPError 404 "Not Found" None);
     random_at := fun _ => (1 # 2)%Q |}.

(** [/ok]: a small file, named by the header. *)
Definition ok_endpoint : world :=
  {| reply_at := fun _ => Responds 200 (Utils.attachment "ok.bin") [] None;
     random_at := fun _ => (1 # 2)%Q |}.

End Scenario.

(** ** Counting the tokens a run of calls takes *)
Module Pacing.
Import RateLimiter.

(** Whether the call took a token: the result of [try_acquire], and for
    [acquire] whether it returned within the clock readings given. *)
Definition granted (c : call) (self : t) : bool :=
  match c with
  | TryAcquire now => snd (try_acquire now self)
  | Acquire clock => snd (acquire clock self)
  end.

(** The number of tokens the calls take, one after the other. *)
Fixpoint taken (calls : list call) (self : t) : nat :=
  match calls with
  | [] => 0%nat
  | c :: calls =>
      ((if granted c self then 1 else 0) + taken calls (perform c self))%nat
  end.

End Pacing.

(** ** Names without surrounding whitespace *)
Module Trim.

(** The first character, if there is one, is not whitespace. *)
Definition starts_clean (s : string) : bool :=
  match s with
  | EmptyString => true
  | String c _ => negb (Str.is_space c)
  end.

(** The last character, if there is one, is not whitespace. *)
Fixpoint ends_clean (s : string) : bool :=
  match s with
  | EmptyString => true
  | String c EmptyString => negb (Str.is_space c)
  | String _ s => ends_clean s
  end.

(** Every character of the text passes the test. *)
Fixpoint every (p : ascii -> bool) (s : string) : bool :=
  match s with
  | EmptyString => true
  | String c s => p c && every p s
  end.

(** The replacement [sanitize_filename] makes for each character. *)
Definition underscore (c : ascii) : ascii :=
  if Utils.is_illegal c then "_"%char else c.

End Trim.

(** ** What a match captures *)
Module Captures.

(** The group [g] with its text comes from one of the items: the item
    stands in that group, and its atom accepts every character of the
    text. *)
Definition captured_by (ic : bool) (items : list Re.item)
    (capture : nat * string) : Prop :=
  exists it : Re.item,
    In it items /\ Re.it_group it = Some (fst capture) /\
    Trim.every (Re.accepts ic (Re.it_atom it)) (snd capture) = true.

End Captures.

(** ** Attempts that are retried *)
Module Retries.
Import Downloader.

Section WithRuntime.
Context {lib : PyLib}.


End WithRuntime.

End Retries.

(** ** rlget/cli.py *)
Module Cli.
Import Pathlib.

(** The namespace that [build_parser().parse_args] returns. *)
Record Args : Type := mkArgs {
  URL : list string;
  output : string;
  rate : Q;
  concurrency : Z;
  retries : Z;
  timeout : Q;
  user_agent : option string;
  no_clobber : bool;
  verbose : bool
}.

(** The namespace for a command line that gives the URLs only: the
    defaults of [build_parser]. *)
Definition defaults (urls : list string) : Args :=
  {| URL := urls; output := "downloads"; rate := 5; concurrency := 4;
     retries := 3; timeout := 20; user_agent := None;
     no_clobber := false; verbose := false |}.

(** [str(p)] of a path. *)
Definition path_str (p : Path) : string :=
  match names p with
  | [] => if Str.is_empty (root p) then "." else root p
  | n :: ns => root p ++ fold_left (fun acc x => acc ++ "/" ++ x) ns n
  end.

(** How an f-string shows an optional value: [None] by its name. *)
Definition shown {A} (show : A -> string) (o : option A) : string :=
  match o with
  | Some a => show a
  | None => "None"
  end.

(** The line for a result that is [ok]. *)
Definition ok_line (r : Downloader.Result) : string :=
  "OK  " ++ Downloader.url r ++ " -> " ++ shown path_str (Downloader.path r).

(** The line for a result that is not. *)
Definition err_line (r : Downloader.Result) : string :=
  "ERR " ++ Downloader.url r
    ++ " (status=" ++ shown Str.of_int (Downloader.status r)
    ++ ", attempts=" ++ Str.of_int (Downloader.attempts r)
    ++ ") " ++ shown (fun s => s) (Downloader.error r).

(** The [for r in results] loop of [main]: the counter [ok] and the lines
    printed so far. *)
Fixpoint report_loop (results : list Downloader.Result) (ok : Z)
    (printed : list string) : Z * list string :=
  match results with
  | [] => (ok, printed)
  | r :: results =>
      if Downloader.ok r
      then report_loop results (ok + 1) (printed ++ [ok_line r])%list
      else report_loop results ok (printed ++ [err_line r])%list
  end.

(** The last line that [main] prints, after an empty line. *)
Definition summary (ok total : Z) : string :=
  String Str.LF "Summary: " ++ Str.of_int ok ++ "/" ++ Str.of_int total
    ++ " succeeded".

(** What [main] does with the results: the lines it prints and the exit
    code it returns. *)
Definition report (results : list Downloader.Result) : list string * Z :=
  let '(ok, printed) := report_loop results 0 [] in
  let total := Z.of_nat (List.length results) in
  ((printed ++ [summary ok total])%list, if ok =? total then 0 else 1).

(** The line of the loop for one result. *)
Definition line (r : Downloader.Result) : string :=
  if Downloader.ok r then ok_line r else err_line r.

Section WithRuntime.
Context {lib : PyLib}.

(** [main], from the parsed arguments on.  An exception of the
    constructor or of [download_many] leaves [main] (the pool is closed on
    the way); otherwise [main] prints the report and returns the exit
    code.  The lines of the verbose log are not part of the result. *)
Definition main (args : Args) (now : Q) (worlds : nat -> Downloader.world)
    (sched : list nat) : Downloader.outcome (list string * Z) :=
  match Downloader.__init__ (parse (output args)) (rate args)
          (concurrency args) (retries args) (timeout args) (user_agent args)
          (no_clobber args) (verbose args) now with
  | inl e => Downloader.Raises e
  | inr mgr =>
      match Downloader.download_many mgr worlds sched (URL args) with
      | Downloader.Returns results => Downloader.Returns (report results)
      | Downloader.Raises e => Downloader.Raises e
      | Downloader.Hangs => Downloader.Hangs
      end
  end.

End WithRuntime.

End Cli.


(** * Properties *)

(** ** The token bucket *)
Module RateLimiterFacts.
Import RateLimiter.

Lemma Qle_bool_false (x y : Q) : Qle_bool x y = false -> (y < x)%Q.
Proof.
  intros Hb. apply Qnot_le_lt. intros Hle.
  apply Qle_bool_iff in Hle. congruence.
Qed.

Lemma init_sound rate cap now self :
  __init__ rate cap now = inr self -> sound self.
Proof.
  unfold __init__. destruct (Qle_bool rate 0) eqn:Hr; [discriminate|].
  intros [= <-]. apply Qle_bool_false in Hr.
  split; [exact Hr|]. split; simpl; [apply Qle_refl | auto].
Qed.

Lemma refill_capacity now self : capacity (_refill now self) = capacity self.
Proof. unfold _refill. destruct (Qle_bool _ _); reflexivity. Qed.

Lemma refill_rate now self : rate (_refill now self) = rate self.
Proof. unfold _refill. destruct (Qle_bool _ _); reflexivity. Qed.

(** A refill never takes tokens away and never goes past the capacity. *)
Lemma refill_sound now self : sound self -> sound (_refill now self).
Proof.
  intros (Hr & Hle & Hge). unfold sound, _refill.
  destruct (Qle_bool (now - _last self) 0) eqn:He; [auto|].
  apply Qle_bool_false in He. simpl. split; [exact Hr|]. split.
  - apply Q.le_min_l.
  - intros Hc. specialize (Hge Hc). apply Q.min_glb; [exact Hc|].
    assert (0 <= (now - _last self) * rate self)%Q; [|lra].
    apply Qmult_le_0_compat; lra.
Qed.

Lemma take_sound self :
  sound self -> (1 <= _tokens self)%Q -> sound (take self).
Proof.
  intros (Hr & Hle & Hge) H1. unfold sound, take; simpl.
  split; [exact Hr|]. split; [lra|]. intros _. lra.
Qed.

Lemma try_acquire_sound now self :
  sound self -> sound (fst (try_acquire now self)).
Proof.
  intros Hs. unfold try_acquire.
  pose proof (refill_sound now self Hs) as Hr.
  destruct (Qle_bool 1 (_tokens (_refill now self))) eqn:Hb; simpl; auto.
  apply take_sound; auto. apply Qle_bool_iff; exact Hb.
Qed.

Lemma acquire_sound clock self :
  sound self -> sound (fst (acquire clock self)).
Proof.
  revert self. induction clock as [|now clock IH]; intros self Hs; simpl; auto.
  pose proof (refill_sound now self Hs) as Hr.
  destruct (Qle_bool 1 (_tokens (_refill now self))) eqn:Hb; simpl; auto.
  apply take_sound; auto. apply Qle_bool_iff; exact Hb.
Qed.

Lemma perform_sound c self : sound self -> sound (perform c self).
Proof.
  destruct c; simpl; [apply try_acquire_sound | apply acquire_sound].
Qed.

Lemma perform_capacity c self : capacity (perform c self) = capacity self.
Proof.
  destruct c as [now|clock]; simpl.
  - unfold try_acquire. destruct (Qle_bool _ _); simpl; apply refill_capacity.
  - revert self. induction clock as [|now clock IH]; intros self; simpl; auto.
    destruct (Qle_bool _ _); simpl; [apply refill_capacity|].
    rewrite IH. apply refill_capacity.
Qed.

Lemma run_sound calls self : sound self -> sound (run calls self).
Proof.
  revert self. induction calls as [|c calls IH]; intros self Hs; simpl; auto.
  apply IH, perform_sound, Hs.
Qed.

Lemma run_capacity calls self : capacity (run calls self) = capacity self.
Proof.
  revert self. induction calls as [|c calls IH]; intros self; simpl; auto.
  unfold run in IH. rewrite IH. apply perform_capacity.
Qed.


Lemma try_acquire_leaves now self self' :
  try_acquire now self = (self', false) -> self' = _refill now self.
Proof.
  unfold try_acquire. destruct (Qle_bool _ _); congruence.
Qed.






End RateLimiterFacts.

(** ** Strings and paths *)
Module StrFacts.

Lemma append_nil_l (b : string) : (EmptyString ++ b)%string = b.
Proof. reflexivity. Qed.

Lemma append_cons c (a b : string) :
  (String c a ++ b)%string = String c (a ++ b).
Proof. reflexivity. Qed.

Ltac push_append := rewrite ?append_nil_l, ?append_cons in *.

Lemma append_assoc (a b c : string) :
  ((a ++ b) ++ c = a ++ (b ++ c))%string.
Proof.
  induction a as [|x a IH]; push_append; [reflexivity | now rewrite IH].
Qed.

Lemma append_inv_head (a b c : string) :
  (a ++ b = a ++ c)%string -> b = c.
Proof.
  induction a as [|x a IH]; push_append; [trivial|]. intros [= E]. auto.
Qed.

Lemma length_append (a b : string) :
  String.length (a ++ b) = (String.length a + String.length b)%nat.
Proof.
  induction a as [|x a IH]; push_append; simpl; [reflexivity | now rewrite IH].
Qed.

Lemma append_inv_tail (a b c : string) :
  (a ++ c = b ++ c)%string -> a = b.
Proof.
  revert b. induction a as [|x a IH]; intros [|y b]; push_append; trivial.
  - intros E. apply (f_equal String.length) in E. simpl in E.
    rewrite length_append in E. lia.
  - intros E. apply (f_equal String.length) in E. simpl in E.
    rewrite length_append in E. lia.
  - intros [= -> E]. f_equal. auto.
Qed.

(** [str(i)] tells integers apart. *)
Lemma of_int_inj (i j : Z) : Str.of_int i = Str.of_int j -> i = j.
Proof.
  unfold Str.of_int. intros E.
  assert (Hnn : forall z, Z.to_int z <> Decimal.Pos Decimal.Nil /\
                          Z.to_int z <> Decimal.Neg Decimal.Nil).
  { intros [|p|p]; simpl; split; try discriminate;
      intros [= Hp]; exact (DecimalPos.Unsigned.to_uint_nonnil p Hp). }
  assert (Hs : Some (Z.to_int i) = Some (Z.to_int j)).
  { rewrite <- (NilZero.isi (Z.to_int i)) by apply Hnn.
    rewrite <- (NilZero.isi (Z.to_int j)) by apply Hnn.
    now rewrite E. }
  injection Hs as Hs.
  rewrite <- (DecimalZ.of_to i), <- (DecimalZ.of_to j). now rewrite Hs.
Qed.

Lemma split_nonempty sep s : Str.split sep s <> [].
Proof.
  destruct s as [|c s]; simpl; [discriminate|].
  destruct (Ascii.eqb c sep); [discriminate|].
  destruct (Str.split sep s); discriminate.
Qed.

(** Splitting a concatenation: the last piece of the left part and the
    first piece of the right part join into one. *)
Lemma split_app sep (a b : string) :
  Str.split sep (a ++ b) =
  (List.removelast (Str.split sep a)
   ++ (List.last (Str.split sep a) EmptyString
       ++ List.hd EmptyString (Str.split sep b))%string
      :: List.tl (Str.split sep b))%list.
Proof.
  induction a as [|c a IH].
  - rewrite append_nil_l. simpl. pose proof (split_nonempty sep b).
    destruct (Str.split sep b); [contradiction | reflexivity].
  - rewrite append_cons. cbn [Str.split]. rewrite IH. clear IH.
    pose proof (split_nonempty sep a) as Hne.
    destruct (Ascii.eqb c sep).
    + destruct (Str.split sep a) as [|w ws]; [contradiction | reflexivity].
    + destruct (Str.split sep a) as [|w ws]; [contradiction|].
      destruct ws as [|w' ws]; reflexivity.
Qed.

(** A text without the separator is one piece. *)
Lemma split_none sep (s : string) :
  Str.mem sep s = false -> Str.split sep s = [s].
Proof.
  induction s as [|c s IH]; simpl; [reflexivity|].
  rewrite Ascii.eqb_sym. destruct (Ascii.eqb c sep); simpl; [discriminate|].
  intros H. now rewrite IH.
Qed.

Lemma mem_append c (a b : string) :
  Str.mem c (a ++ b) = Str.mem c a || Str.mem c b.
Proof.
  induction a as [|x a IH]; push_append; simpl; [reflexivity|].
  rewrite IH. now rewrite orb_assoc.
Qed.

End StrFacts.

(** ** [dedupe_path] *)
Module DedupeFacts.
Import Pathlib Utils StrFacts.

Lemma digits_no_slash (d : Decimal.uint) :
  Str.mem slash (NilEmpty.string_of_uint d) = false.
Proof. induction d; simpl; auto. Qed.

Lemma of_int_no_slash (i : Z) : Str.mem slash (Str.of_int i) = false.
Proof.
  unfold Str.of_int, NilZero.string_of_int, NilZero.string_of_uint.
  destruct (Z.to_int i) as [d|d]; destruct d; simpl; auto using digits_no_slash.
Qed.

Lemma kept_with_paren (w : string) : Str.mem "(" w = true -> kept w = true.
Proof.
  intros Hm. unfold kept.
  destruct (String.eqb w ".") eqn:E.
  - apply String.eqb_eq in E. rewrite E in Hm. discriminate.
  - destruct w; [discriminate | reflexivity].
Qed.

(** The leading slashes of a text are those of any prefix that is followed
    by another character. *)
Lemma leading_slashes_app (a : string) c (r : string) :
  Ascii.eqb c slash = false ->
  leading_slashes (a ++ String c r) = leading_slashes a.
Proof.
  intros Hc. induction a as [|x a IH]; push_append; simpl.
  - now rewrite Hc.
  - destruct (Ascii.eqb x slash); [now rewrite IH | reflexivity].
Qed.

Lemma numbered_mark stem suffix i :
  numbered stem suffix i = (stem ++ mark i ++ suffix)%string.
Proof.
  unfold numbered, mark. now rewrite !append_assoc.
Qed.

Lemma mark_no_slash i : Str.mem slash (mark i) = false.
Proof.
  unfold mark. rewrite !mem_append, of_int_no_slash. reflexivity.
Qed.

Lemma mark_paren i : Str.mem "(" (mark i) = true.
Proof. reflexivity. Qed.

Lemma mark_inj i j : mark i = mark j -> i = j.
Proof.
  unfold mark. intros E. apply append_inv_head in E.
  apply append_inv_tail in E. now apply of_int_inj.
Qed.

(** The components of a numbered name: those of the stem but its last,
    the component that holds the number, and those of the suffix but its
    first. *)
Lemma names_numbered stem suffix i :
  names (parse (numbered stem suffix i)) =
  (List.filter kept (List.removelast (Str.split slash stem))
   ++ (List.last (Str.split slash stem) EmptyString
       ++ mark i ++ List.hd EmptyString (Str.split slash suffix))%string
      :: List.filter kept (List.tl (Str.split slash suffix)))%list.
Proof.
  rewrite numbered_mark. unfold parse; cbn [names].
  rewrite split_app, (split_app _ (mark i) suffix).
  rewrite (split_none _ _ (mark_no_slash i)). cbn [List.removelast List.last].
  rewrite List.filter_app. cbn [app List.hd List.tl List.filter].
  rewrite kept_with_paren; [reflexivity|].
  rewrite !mem_append, mark_paren. now rewrite orb_true_r.
Qed.

Lemma root_numbered stem suffix i j :
  root (parse (numbered stem suffix i)) = root (parse (numbered stem suffix j)).
Proof.
  unfold parse; cbn [root]. unfold numbered.
  change ("(" ++ Str.of_int i ++ ")" ++ suffix)%string
    with (String "(" (Str.of_int i ++ ")" ++ suffix)).
  change ("(" ++ Str.of_int j ++ ")" ++ suffix)%string
    with (String "(" (Str.of_int j ++ ")" ++ suffix)).
  now rewrite !leading_slashes_app.
Qed.

(** Different numbers give different candidates. *)
Lemma candidate_inj path i j : candidate path i = candidate path j -> i = j.
Proof.
  unfold candidate, joinpath.
  rewrite (root_numbered _ _ i j).
  intros E.
  assert (En : names (parse (numbered (stem path) (suffix path) i)) =
               names (parse (numbered (stem path) (suffix path) j))).
  { destruct (Str.is_empty _).
    - injection E as E. now apply List.app_inv_head in E.
    - now rewrite E. }
  rewrite !names_numbered in En. apply List.app_inv_head in En.
  injection En as En. apply append_inv_head, append_inv_tail in En.
  now apply mark_inj.
Qed.

(** What the loop returns is the first free candidate from [i] on. *)
Lemma dedupe_loop_some fs path fuel : forall i r,
  dedupe_loop fs path i fuel = Some r ->
  exists k : nat,
    (k < fuel)%nat /\ r = candidate path (i + Z.of_nat k) /\
    exists_ fs r = false /\
    forall j : nat, (j < k)%nat ->
      exists_ fs (candidate path (i + Z.of_nat j)) = true.
Proof.
  induction fuel as [|fuel IH]; intros i r; simpl; [discriminate|].
  destruct (exists_ fs (candidate path i)) eqn:Hex; simpl.
  - intros Hr. destruct (IH _ _ Hr) as (k & Hk & -> & Hfree & Hbusy).
    exists (S k). repeat split.
    + lia.
    + f_equal. lia.
    + exact Hfree.
    + intros [|j] Hj; [now rewrite Z.add_0_r|].
      replace (i + Z.of_nat (S j)) with (i + 1 + Z.of_nat j) by lia.
      apply Hbusy. lia.
  - intros [= <-]. exists 0%nat. rewrite Z.add_0_r. repeat split; auto.
    + lia.
    + intros j Hj. lia.
Qed.

Lemma dedupe_loop_none fs path fuel : forall i,
  dedupe_loop fs path i fuel = None ->
  forall j : nat, (j < fuel)%nat ->
    exists_ fs (candidate path (i + Z.of_nat j)) = true.
Proof.
  induction fuel as [|fuel IH]; intros i; simpl; [intros _ j Hj; lia|].
  destruct (exists_ fs (candidate path i)) eqn:Hex; simpl; [|discriminate].
  intros Hn [|j] Hj; [now rewrite Z.add_0_r|].
  replace (i + Z.of_nat (S j)) with (i + 1 + Z.of_nat j) by lia.
  apply IH; [exact Hn | lia].
Qed.

(** More candidates than existing paths: one of them is free. *)
Lemma dedupe_loop_enough fs path i :
  dedupe_loop fs path i (S (List.length fs)) <> None.
Proof.
  intros Hn. pose proof (dedupe_loop_none _ _ _ _ Hn) as Hall.
  set (cands := (fun j : nat => candidate path (i + Z.of_nat j))
                  <$> seq 0 (S (List.length fs))).
  assert (Hnd : NoDup cands).
  { apply NoDup_fmap_2; [|apply NoDup_seq].
    intros a b E. apply candidate_inj in E. lia. }
  assert (Hsub : forall p, p ∈ cands -> p ∈ fs).
  { intros p Hp. apply list_elem_of_fmap in Hp as (j & -> & Hj).
    apply elem_of_seq in Hj.
    specialize (Hall j ltac:(lia)). unfold exists_ in Hall.
    now apply bool_decide_eq_true in Hall. }
  pose proof (submseteq_length _ _ (NoDup_submseteq _ _ Hnd Hsub)) as Hlen.
  unfold cands in Hlen. rewrite length_fmap, length_seq in Hlen. lia.
Qed.

(** C8: [dedupe_path] always returns; it returns its input when nothing
    exists there, and otherwise the candidate [stem(i)suffix] with the
    least [i >= 1] at which nothing exists.  With [file.txt] present the
    result is [file(1).txt], and [file(2).txt] when that is present too. *)
Theorem dedupe_path_first_free (fs : list Path) (path : Path) :
  (exists r : Path,
     dedupe_path fs path = Some r /\
     (exists_ fs path = false -> r = path) /\
     (exists_ fs path = true ->
      exists i : Z,
        1 <= i /\ r = candidate path i /\ exists_ fs r = false /\
        forall j : Z, 1 <= j < i -> exists_ fs (candidate path j) = true)) /\
  dedupe_path [parse "downloads/file.txt"] (parse "downloads/file.txt")
    = Some (parse "downloads/file(1).txt") /\
  dedupe_path [parse "downloads/file.txt"; parse "downloads/file(1).txt"]
              (parse "downloads/file.txt")
    = Some (parse "downloads/file(2).txt").
Proof.
  split; [|split; reflexivity].
  unfold dedupe_path. destruct (exists_ fs path) eqn:Hex; cbn [negb].
  - destruct (dedupe_loop fs path 1 (S (List.length fs))) as [r|] eqn:Hr;
      [|now apply dedupe_loop_enough in Hr].
    exists r. split; [reflexivity|]. split; [discriminate|]. intros _.
    destruct (dedupe_loop_some _ _ _ _ _ Hr) as (k & _ & -> & Hfree & Hbusy).
    exists (1 + Z.of_nat k). repeat split; auto; [lia|].
    intros j Hj. replace j with (1 + Z.of_nat (Z.to_nat (j - 1))) by lia.
    apply Hbusy. lia.
  - exists path. split; [reflexivity|]. split; [trivial | discriminate].
Qed.

End DedupeFacts.

(** ** [sanitize_filename] and [guess_filename] *)
Module GuessFacts.
Import Pathlib Utils StrFacts.

Lemma illegal_cases c :
  is_illegal c = true ->
  c = "\"%char \/ c = "/"%char \/ c = ":"%char \/ c = "*"%char \/
  c = "?"%char \/ c = Str.dq \/ c = "<"%char \/ c = ">"%char \/
  c = "|"%char.
Proof.
  unfold is_illegal, illegal. cbn [existsb]. rewrite !orb_true_iff.
  rewrite !Ascii.eqb_eq. intuition discriminate.
Qed.

Lemma replaced_clean (s : string) c :
  is_illegal c = true ->
  Str.mem c (Str.map (fun x => if is_illegal x then "_"%char else x) s) = false.
Proof.
  intros Hc. induction s as [|x s IH]; simpl; [reflexivity|].
  rewrite IH, orb_false_r. destruct (is_illegal x) eqn:Hx.
  - apply Ascii.eqb_neq. intros ->. discriminate.
  - apply Ascii.eqb_neq. intros ->. congruence.
Qed.

(** Whatever it is given, [sanitize_filename] returns a clean name. *)
Lemma sanitize_clean (name : string) : clean (sanitize_filename name).
Proof.
  unfold sanitize_filename.
  destruct (Str.is_empty _) eqn:He.
  - split; [discriminate|]. intros c Hc.
    destruct (illegal_cases c Hc) as [->|[->|[->|[->|[->|[->|[->|[->| ->]]]]]]]];
      reflexivity.
  - split.
    + intros E. rewrite E in He. discriminate.
    + intros c Hc. now apply replaced_clean.
Qed.

Lemma download_clean : clean "download".
Proof. exact (sanitize_clean EmptyString). Qed.

(** The name [guess_filename] returns is clean, wherever it comes from. *)
Lemma guess_filename_clean (lib : PyLib) url headers name :
  guess_filename url headers "download" = inr name -> clean name.
Proof.
  unfold guess_filename, name_from_url.
  destruct (header_candidate headers).
  - intros [= <-]. apply sanitize_clean.
  - destruct (urlparse_path url); [discriminate|].
    destruct (Str.is_empty _); intros [= <-];
      [apply download_clean | apply sanitize_clean].
Qed.

(** A clean name other than the two dot names is one component, and the
    joined path is a direct child. *)
Lemma clean_name_direct_child (dir : Path) (name : string) :
  clean name -> name <> "." -> name <> ".." ->
  joinpath dir name = {| root := root dir; names := names dir ++ [name] |} /\
  is_direct_child dir (joinpath dir name) = true.
Proof.
  intros [Hne Hill] Hdot Hdots.
  assert (Hsl : Str.mem slash name = false) by (apply Hill; reflexivity).
  assert (Hp : parse name = {| root := EmptyString; names := [name] |}).
  { unfold parse. rewrite (split_none _ _ Hsl). cbn [List.filter].
    assert (Hk : kept name = true).
    { unfold kept. destruct (String.eqb name ".") eqn:E.
      - apply String.eqb_eq in E. contradiction.
      - destruct name; [contradiction | reflexivity]. }
    rewrite Hk. f_equal.
    destruct name as [|c r]; [contradiction|]. cbn [Str.mem] in Hsl.
    apply orb_false_iff in Hsl as [Hc _]. cbn [leading_slashes].
    rewrite Ascii.eqb_sym, Hc. reflexivity. }
  assert (Hj : joinpath dir name =
               {| root := root dir; names := names dir ++ [name] |}).
  { unfold joinpath. now rewrite Hp. }
  split; [exact Hj|]. rewrite Hj. unfold is_direct_child. cbn [names root].
  rewrite List.rev_app_distr. cbn [List.rev app]. rewrite List.rev_involutive.
  rewrite !bool_decide_eq_true_2 by reflexivity.
  destruct (String.eqb name "..") eqn:E; [|reflexivity].
  apply String.eqb_eq in E. contradiction.
Qed.

(** C7: [guess_filename] prefers the name found in the Content-Disposition
    header, whatever the URL is; without one it takes the last segment of
    the URL path; and when that is empty it returns the fallback.  The
    header with [filename=report.pdf] in quotes gives [report.pdf], the
    URL path [/files/image.png] gives [image.png], and an empty path gives
    [download]. *)
Theorem guess_filename_precedence (lib : PyLib)
    (url : string) (headers : option (gmap string string)) (default : string) :
  (forall c, header_candidate headers = Some c ->
     guess_filename url headers default = inr (sanitize_filename (unquote c))) /\
  (forall path,
     header_candidate headers = None -> urlparse_path url = inr path ->
     basename path <> EmptyString ->
     guess_filename url headers default
       = inr (sanitize_filename (unquote (basename path)))) /\
  (forall path,
     header_candidate headers = None -> urlparse_path url = inr path ->
     basename path = EmptyString ->
     guess_filename url headers default = inr default) /\
  header_candidate None = None /\
  header_candidate (Some ∅) = None /\
  guess_filename (lib := Py.model) "https://example.com/download"
     (Some (attachment "report.pdf")) "download" = inr "report.pdf" /\
  guess_filename (lib := Py.model) "https://example.com/files/image.png"
     (Some ∅) "download" = inr "image.png" /\
  guess_filename (lib := Py.model) "https://example.com/files/image.png"
     None "download" = inr "image.png" /\
  guess_filename (lib := Py.model) "https://example.com" None "download"
    = inr "download".
Proof.
  unfold guess_filename, name_from_url. repeat split; try reflexivity.
  - intros c ->. reflexivity.
  - intros path -> -> Hb.
    destruct (basename path); [contradiction | reflexivity].
  - intros path -> -> ->. reflexivity.
Qed.

(** The name of the comment in [utils.py], and the replacements of
    [sanitize_filename]. *)
Example sanitize_and_decode_examples :
  guess_filename (lib := Py.model) "https://example.com/download"
    (Some {[ "Content-Disposition" :=
               "attachment; filename*=UTF-8''photo%20(1).jpg" ]}) "download"
    = inr "photo (1).jpg" /\
  sanitize_filename "a/b:c*d?e<f>g|h\i" = "a_b_c_d_e_f_g_h_i" /\
  sanitize_filename "   " = "download" /\
  sanitize_filename EmptyString = "download" /\
  guess_filename (lib := Py.model) "https://example.com/a%2Fb/..%2Fetc?x=1#top"
    None "download" = inr ".._etc".
Proof. repeat split; reflexivity. Qed.

(** C10, at the input where it fails.  A header that names the file [.]
    or [..] comes through [sanitize_filename] unchanged; joined to the
    output directory, [.] gives the directory itself and [..] its parent,
    neither a direct child.  With [no_clobber], the destination chosen for
    [.] lies beside the output directory, not inside it. *)
Theorem dot_names_leave_output_dir :
  let url := "https://example.com/download" in
  let out := parse "downloads" in
  guess_filename (lib := Py.model) url (Some (attachment ".")) "download" = inr "." /\
  joinpath out "." = out /\
  is_direct_child out (joinpath out ".") = false /\
  guess_filename (lib := Py.model) url (Some (attachment "..")) "download" = inr ".." /\
  is_direct_child out (joinpath out "..") = false /\
  dedupe_path [out] (joinpath out ".") = Some (parse "downloads(1)") /\
  is_direct_child out (parse "downloads(1)") = false.
Proof. repeat split; reflexivity. Qed.

End GuessFacts.

(** ** The retry loop *)
Module BackoffFacts.
Import Pathlib Utils Downloader.




Lemma time_sleep_negative (d : Q) :
  (d < 0)%Q ->
  time_sleep d = inl (ValueError "sleep length must be non-negative").
Proof.
  intros H. unfold time_sleep. destruct (Qle_bool 0 d) eqn:E; [|reflexivity].
  apply Qle_bool_iff in E. lra.
Qed.





End BackoffFacts.

Module RetryFacts.
Import Pathlib Utils Downloader BackoffFacts.



Section Loop.
Context {lib : PyLib} (self : DownloadManager) (w : world) (url : string).




Lemma try_block_done (k : Z) (ls ls' : option Z) (r : Result) :
  try_block self w url k ls = (ls', Done r) ->
  ok r = true /\ attempts r = k /\ Downloader.url r = url /\
  status r = ls' /\ error r = None.
Proof.
  unfold try_block. destruct (reply_at w k) as [e|status hdrs fs body];
    [discriminate|].
  destruct (guess_filename _ _ _); [discriminate|].
  destruct (if no_clobber self then _ else _); destruct body;
    try discriminate.
  intros [= <- <-]. repeat split.
Qed.

(** The shape of a turn's result. *)
Lemma attempt_continue (l l' : locals) (d : Q) :
  attempt self w url l = Continue l' d ->
  l_attempts l' = l_attempts l + 1 /\ l_attempts l + 1 <= retries self.
Proof.
  unfold attempt, retry.
  destruct (try_block _ _ _ _ _) as [ls [r|[code reason ra|reason|[tn msg]]|]];
    try discriminate.
  - destruct (bool_decide _ && _) eqn:Hc; [|discriminate].
    apply andb_true_iff in Hc as [_ Hle%Z.leb_le].
    destruct (_sleep_backoff _ _ _); [discriminate|].
    intros [= <- _]. simpl. auto.
  - destruct (_ <=? _) eqn:Hle; [|discriminate]. apply Z.leb_le in Hle.
    destruct (_sleep_backoff _ _ _); [discriminate|].
    intros [= <- _]. simpl. auto.
  - destruct (_ <=? _) eqn:Hle; [|discriminate]. apply Z.leb_le in Hle.
    destruct (_sleep_backoff _ _ _); [discriminate|].
    intros [= <- _]. simpl. auto.
Qed.

Lemma attempt_break (l l' : locals) :
  attempt self w url l = Break l' -> l_attempts l' = l_attempts l + 1.
Proof.
  unfold attempt, retry.
  destruct (try_block _ _ _ _ _) as [ls [r|[code reason ra|reason|[tn msg]]|]];
    try discriminate.
  - destruct (bool_decide _ && _).
    + destruct (_sleep_backoff _ _ _); discriminate.
    + intros [= <-]. reflexivity.
  - destruct (_ <=? _).
    + destruct (_sleep_backoff _ _ _); discriminate.
    + intros [= <-]. reflexivity.
  - destruct (_ <=? _).
    + destruct (_sleep_backoff _ _ _); discriminate.
    + intros [= <-]. reflexivity.
Qed.

Lemma attempt_return (l : locals) (r : Result) :
  attempt self w url l = Return r ->
  ok r = true /\ attempts r = l_attempts l + 1.
Proof.
  unfold attempt, retry.
  destruct (try_block _ _ _ _ _) as [ls [r'|[code reason ra|reason|[tn msg]]|]]
    eqn:Htb.
  - intros [= <-]. apply try_block_done in Htb. tauto.
  - destruct (bool_decide _ && _); [|discriminate].
    destruct (_sleep_backoff _ _ _); discriminate.
  - destruct (_ <=? _); [|discriminate].
    destruct (_sleep_backoff _ _ _); discriminate.
  - destruct (_ <=? _); [|discriminate].
    destruct (_sleep_backoff _ _ _); discriminate.
  - discriminate.
Qed.



(** The attempts a returned result reports. *)
Lemma loop_attempts (fuel : nat) : forall (l : locals) (r : Result),
  loop self w url fuel l = Returns r ->
  l_attempts l <= attempts r <= Z.max (l_attempts l) (retries self + 1).
Proof.
  induction fuel as [|fuel IH]; intros l r; cbn [loop]; [discriminate|].
  destruct (l_attempts l <=? retries self) eqn:Hc.
  - apply Z.leb_le in Hc.
    destruct (attempt self w url l) as [l' d|l'|r'|e|] eqn:Ha;
      try discriminate.
    + apply attempt_continue in Ha as [Ha _]. intros Hr.
      apply IH in Hr. lia.
    + apply attempt_break in Ha. intros [= <-]. simpl. lia.
    + apply attempt_return in Ha as [_ Ha]. intros [= <-]. lia.
  - intros [= <-]. simpl. lia.
Qed.

(** A successful result comes from a turn, so it reports one attempt at
    least. *)
Lemma loop_first_attempt (fuel : nat) (l : locals) (r : Result) :
  l_attempts l <= retries self ->
  loop self w url fuel l = Returns r -> l_attempts l + 1 <= attempts r.
Proof.
  destruct fuel as [|fuel]; cbn [loop]; [discriminate|]. intros Hc.
  apply Z.leb_le in Hc. rewrite Hc.
  destruct (attempt self w url l) as [l' d|l'|r'|e|] eqn:Ha; try discriminate.
  - apply attempt_continue in Ha as [Ha _]. intros Hr.
    apply loop_attempts in Hr. lia.
  - apply attempt_break in Ha. intros [= <-]. simpl. lia.
  - apply attempt_return in Ha as [_ Ha]. intros [= <-]. lia.
Qed.

End Loop.



Section Carried.
Context {lib : PyLib} (self : DownloadManager) (w : world) (url : string).






End Carried.

End RetryFacts.

(** ** The claims on [_download_one] and [download_many] *)
Module DownloadFacts.
Import Pathlib Utils Downloader BackoffFacts RetryFacts.




Section Budget.
Context {lib : PyLib} (self : DownloadManager) (w : world) (url : string).





End Budget.




(** *** The coordinator *)

Lemma take_out_perm {A} (k : nat) : forall (pending rest : list A) (x : A),
  take_out k pending = Some (x, rest) -> Permutation pending (x :: rest).
Proof.
  induction k as [|k IH]; intros [|y pending] rest x; simpl;
    try discriminate.
  - intros [= <- <-]. reflexivity.
  - destruct (take_out k pending) as [[z rest']|] eqn:Ht.
    + intros [= <- <-]. rewrite (IH _ _ _ Ht). apply perm_swap.
    + intros [= <- <-]. reflexivity.
Qed.

Lemma take_out_some {A} (k : nat) (x : A) (pending : list A) :
  take_out k (x :: pending) <> None.
Proof.
  destruct k; simpl; [discriminate|].
  destruct (take_out k pending) as [[? ?]|]; discriminate.
Qed.

(** [as_completed] yields every future once. *)
Lemma as_completed_perm {A} (sched : list nat) (pending : list A) :
  Permutation (as_completed sched (List.length pending) pending) pending.
Proof.
  remember (List.length pending) as n eqn:Hn.
  revert sched pending Hn.
  induction n as [|n IH]; intros sched pending Hn; simpl.
  - destruct pending; [reflexivity | discriminate].
  - destruct pending as [|x pending]; [discriminate|].
    destruct (take_out (hd 0%nat sched) (x :: pending)) as [[y rest]|] eqn:Ht;
      [|now apply take_out_some in Ht].
    apply take_out_perm in Ht. rewrite Ht. constructor. apply IH.
    apply Permutation_length in Ht. simpl in Ht, Hn. lia.
Qed.

(** When the gathering loop returns, every future returned, and the
    results are theirs in order. *)
Lemma gather_returns (futures : list (outcome Result)) :
  forall acc rs,
    gather futures acc = Returns rs ->
    exists rs', rs = (acc ++ rs')%list /\ futures = Returns <$> rs'.
Proof.
  induction futures as [|[r|e|] futures IH]; intros acc rs; simpl;
    try discriminate.
  - intros [= <-]. exists []. now rewrite List.app_nil_r.
  - intros Hg. destruct (IH _ _ Hg) as (rs' & -> & ->).
    exists (r :: rs'). split; [now rewrite <- List.app_assoc | reflexivity].
Qed.

Lemma gather_all_returned (rs : list Result) (acc : list Result) :
  gather (Returns <$> rs) acc = Returns (acc ++ rs)%list.
Proof.
  revert acc. induction rs as [|r rs IH]; intros acc; simpl.
  - now rewrite List.app_nil_r.
  - rewrite IH. now rewrite <- List.app_assoc.
Qed.

Section Coordinator.
Context {lib : PyLib} (self : DownloadManager).

Lemma loop_url w url (fuel : nat) : forall l r,
  loop self w url fuel l = Returns r -> Downloader.url r = url.
Proof.
  induction fuel as [|fuel IH]; intros l r; cbn [loop]; [discriminate|].
  destruct (l_attempts l <=? retries self).
  - destruct (attempt self w url l) as [l' d|l'|r'|e|] eqn:Ha;
      try discriminate.
    + apply IH.
    + intros [= <-]. reflexivity.
    + intros [= <-]. revert Ha. unfold attempt, retry.
      destruct (try_block self w url (l_attempts l + 1) (l_last_status l))
        as [ls [r0|[code reason ra|reason|[tn msg]]|]] eqn:Htb.
      * intros [= ->]. now apply try_block_done in Htb.
      * destruct (bool_decide _ && _); [|discriminate].
        destruct (_sleep_backoff _ _ _); discriminate.
      * destruct (_ <=? _); [|discriminate].
        destruct (_sleep_backoff _ _ _); discriminate.
      * destruct (_ <=? _); [|discriminate].
        destruct (_sleep_backoff _ _ _); discriminate.
      * discriminate.
  - intros [= <-]. reflexivity.
Qed.

(** The URL a future was submitted for, read off its result. *)
Lemma futures_urls (urls : list string) : forall worlds : nat -> world,
  Forall (fun o => exists q, o = Returns q)
         (imap (fun i u => _download_one self (worlds i) u) urls) ->
  url_of <$> imap (fun i u => _download_one self (worlds i) u) urls = urls.
Proof.
  induction urls as [|u urls IH]; intros worlds; [reflexivity|].
  rewrite imap_cons, fmap_cons. intros Hall.
  apply Forall_cons in Hall as [[q Hq] Hall]. f_equal.
  - rewrite Hq. simpl. apply loop_url in Hq. exact Hq.
  - apply (IH (fun i => worlds (S i))). exact Hall.
Qed.

(** When [download_many] returns, its results are those of the workers,
    one for each submitted URL. *)
Lemma download_many_returns worlds sched urls rs :
  download_many self worlds sched urls = Returns rs ->
  Permutation (Returns <$> rs)
              (imap (fun i u => _download_one self (worlds i) u) urls) /\
  List.length rs = List.length urls /\
  Permutation (Downloader.url <$> rs) urls.
Proof.
  unfold download_many. intros Hg.
  destruct (gather_returns _ _ _ Hg) as (rs' & -> & Hf). simpl.
  set (futures := imap (fun i u => _download_one self (worlds i) u) urls)
    in *.
  pose proof (as_completed_perm sched futures) as Hp. rewrite Hf in Hp.
  split; [exact Hp|]. split.
  - apply Permutation_length in Hp. unfold futures in Hp.
    rewrite length_fmap, length_imap in Hp. exact Hp.
  - assert (Hall : Forall (fun o => exists q, o = Returns q) futures).
    { apply (Permutation_Forall Hp). apply Forall_fmap, Forall_true.
      intros q. simpl. eauto. }
    rewrite <- (futures_urls urls worlds Hall). fold futures.
    rewrite <- Hp, <- list_fmap_compose. reflexivity.
Qed.

(** When every worker returns, so does [download_many]. *)
Lemma download_many_when_all_return worlds sched urls :
  Forall (fun o => exists q, o = Returns q)
         (imap (fun i u => _download_one self (worlds i) u) urls) ->
  exists rs, download_many self worlds sched urls = Returns rs.
Proof.
  unfold download_many. intros Hall.
  set (futures := imap (fun i u => _download_one self (worlds i) u) urls)
    in *.
  pose proof (as_completed_perm sched futures) as Hp.
  apply Permutation_sym in Hp. apply (Permutation_Forall Hp) in Hall.
  assert (Hrs : exists rs,
            as_completed sched (List.length futures) futures = Returns <$> rs).
  { clear Hp. induction Hall as [|o os [q ->] _ [rs ->]].
    - exists []. reflexivity.
    - exists (q :: rs). reflexivity. }
  destruct Hrs as [rs ->]. exists rs. apply (gather_all_returned rs []).
Qed.

End Coordinator.

(** C9, as the claim states it, fails: [DownloadManager.__init__] accepts
    [retries = -1], and the result then reports no attempt at all. *)
Lemma negative_retries_zero_attempts :
  exists (m : DownloadManager) (r : Result),
    Downloader.__init__ (parse "downloads") 5 4 (-1) 20 None false false 0
      = inr m /\
    _download_one (lib := Py.model) m Scenario.ok_endpoint
      "http://127.0.0.1:8000/ok" = Returns r /\
    attempts r = 0 /\ ok r = false.
Proof. do 2 eexists. repeat split; reflexivity. Qed.

(** C9 (amended): with [retries >= 0], every result that [_download_one]
    returns, and so every result in the list that [download_many]
    returns, reports at least one attempt. *)
Theorem attempts_positive (lib : PyLib) (self : DownloadManager) :
  0 <= retries self ->
  (forall w url r, _download_one self w url = Returns r -> 1 <= attempts r) /\
  (forall worlds sched urls rs,
     download_many self worlds sched urls = Returns rs ->
     forall r, r ∈ rs -> 1 <= attempts r).
Proof.
  intros Hret.
  assert (Hone : forall w url r,
            _download_one self w url = Returns r -> 1 <= attempts r).
  { intros w url r Hr. unfold _download_one in Hr.
    apply loop_first_attempt in Hr; simpl in *; lia. }
  split; [exact Hone|].
  intros worlds sched urls rs Hm r Hin.
  destruct (download_many_returns self worlds sched urls rs Hm) as (Hp & _).
  assert (Hf : Returns r ∈ imap (fun i u => _download_one self (worlds i) u) urls).
  { rewrite <- Hp. apply list_elem_of_fmap. eauto. }
  apply elem_of_lookup_imap in Hf as (i & u & Hr & _).
  symmetry in Hr. exact (Hone _ _ _ Hr).
Qed.

Lemma attempts_positive_witness :
  0 <= retries (Scenario.manager 0) /\
  exists r,
    _download_one (lib := Py.model) (Scenario.manager 0)
      Scenario.missing_endpoint "http://127.0.0.1:8000/nothing" = Returns r /\
    1 <= attempts r.
Proof.
  assert (H0 : 0 <= retries (Scenario.manager 0)) by (simpl; lia).
  split; [exact H0|]. eexists. split; [reflexivity|].
  destruct (attempts_positive Py.model (Scenario.manager 0) H0) as [H _].
  apply (H Scenario.missing_endpoint "http://127.0.0.1:8000/nothing").
  reflexivity.
Defined.

(** C1, at the input where the program fails.  A server that answers 503
    with [Retry-After: -1] makes [time.sleep] raise inside the handler;
    the exception leaves [_download_one], and [download_many] raises it
    instead of returning a result for this URL, or for the other URL that
    was downloaded without fault. *)
Theorem negative_retry_after_escapes :
  _download_one (lib := Py.model) (Scenario.manager 3) Scenario.hasty_endpoint
    "http://127.0.0.1:8000/hasty"
    = Raises (ValueError "sleep length must be non-negative") /\
  download_many (lib := Py.model) (Scenario.manager 3)
    (fun _ => Scenario.hasty_endpoint) [] ["http://127.0.0.1:8000/hasty"]
    = Raises (ValueError "sleep length must be non-negative") /\
  (exists r,
     _download_one (lib := Py.model) (Scenario.manager 3) Scenario.ok_endpoint
       "http://127.0.0.1:8000/ok" = Returns r /\ ok r = true) /\
  download_many (lib := Py.model) (Scenario.manager 3)
    (fun i => if Nat.eqb i 0 then Scenario.ok_endpoint
              else Scenario.hasty_endpoint)
    [] ["http://127.0.0.1:8000/ok"; "http://127.0.0.1:8000/hasty"]
    = Raises (ValueError "sleep length must be non-negative").
Proof.
  split; [reflexivity|]. split; [reflexivity|]. split; [|reflexivity].
  eexists. split; reflexivity.
Qed.

End DownloadFacts.

(** * Further properties *)

(** ** Pacing by the token bucket *)
Module PacingFacts.
Import RateLimiter Pacing RateLimiterFacts.

Lemma count_succ (n : nat) :
  (inject_Z (Z.of_nat (S n)) == inject_Z (Z.of_nat n) + 1)%Q.
Proof. rewrite Nat2Z.inj_succ. unfold Z.succ. now rewrite inject_Z_plus. Qed.







(** Tokens never shrink in a refill of a sound limiter. *)
Lemma refill_keeps_tokens now self :
  sound self -> (_tokens self <= _tokens (_refill now self))%Q.
Proof.
  intros (Hr & Hle & _). unfold _refill.
  destruct (Qle_bool (now - _last self) 0) eqn:He; simpl; [lra|].
  apply Qle_bool_false in He. apply Q.min_glb; [exact Hle|]. nra.
Qed.

Lemma burst_granted (times : list Q) : forall self,
  sound self ->
  (inject_Z (Z.of_nat (List.length times)) <= _tokens self)%Q ->
  taken (TryAcquire <$> times) self = List.length times.
Proof.
  induction times as [|now times IH]; intros self Hs Hk; [reflexivity|].
  rewrite fmap_cons. cbn [taken granted perform List.length].
  cbn [List.length] in Hk. rewrite count_succ in Hk.
  pose proof (refill_keeps_tokens now self Hs) as Hk'.
  pose proof (refill_sound now self Hs) as Hs'.
  assert (Hpos : (0 <= inject_Z (Z.of_nat (List.length times)))%Q).
  { change 0%Q with (inject_Z 0). rewrite <- Zle_Qle. lia. }
  unfold try_acquire.
  assert (H1 : Qle_bool 1 (_tokens (_refill now self)) = true)
    by (apply Qle_bool_iff; lra).
  rewrite H1. cbn [fst snd]. f_equal. apply IH.
  - apply take_sound; [exact Hs' | lra].
  - simpl. lra.
Qed.

(** X2: a burst within the capacity is never made to wait.  On a fresh
    limiter, as many calls as the capacity holds whole tokens are all
    granted at once, whatever the clock reads at each of them. *)
Theorem burst_within_capacity
    (rate : Q) (cap : option Q) (now0 : Q) (self : t) (times : list Q) :
  __init__ rate cap now0 = inr self ->
  (inject_Z (Z.of_nat (List.length times)) <= capacity self)%Q ->
  taken (TryAcquire <$> times) self = List.length times /\
  taken ((fun now => Acquire [now]) <$> times) self = List.length times.
Proof.
  intros Hinit Hk.
  assert (Ht : _tokens self = capacity self).
  { unfold __init__ in Hinit. destruct (Qle_bool rate 0); [discriminate|].
    injection Hinit as <-. reflexivity. }
  assert (Hb : taken (TryAcquire <$> times) self = List.length times).
  { apply burst_granted; [exact (init_sound _ _ _ _ Hinit)|].
    rewrite Ht. exact Hk. }
  split; [exact Hb|]. rewrite <- Hb. clear.
  revert self. induction times as [|now times IH]; intros self;
    [reflexivity|].
  rewrite !fmap_cons. cbn [taken]. rewrite IH.
  cbn [granted perform acquire]. unfold try_acquire.
  destruct (Qle_bool 1 (_tokens (_refill now self))); reflexivity.
Qed.

Lemma burst_within_capacity_witness :
  __init__ 5 None 0 = inr (mk 5 5 5 0) /\
  (inject_Z (Z.of_nat (List.length [0%Q; 0%Q; (1 # 100)%Q; 0%Q; (1 # 50)%Q]))
   <= capacity (mk 5 5 5 0))%Q /\
  taken (TryAcquire <$> [0%Q; 0%Q; (1 # 100)%Q; 0%Q; (1 # 50)%Q]) (mk 5 5 5 0)
    = 5%nat.
Proof.
  assert (Hk : (inject_Z (Z.of_nat (List.length
                   [0%Q; 0%Q; (1 # 100)%Q; 0%Q; (1 # 50)%Q]))
                <= capacity (mk 5 5 5 0))%Q) by (vm_compute; discriminate).
  split; [reflexivity|]. split; [exact Hk|].
  exact (proj1 (burst_within_capacity 5 None 0 (mk 5 5 5 0) _ eq_refl Hk)).
Defined.

(** While the clock does not advance, each grant costs one token and a
    refusal changes nothing. *)
Lemma same_instant_count (n : nat) : forall (k : nat) (now : Q) (self : t),
  (now <= _last self)%Q ->
  (inject_Z (Z.of_nat k) <= _tokens self)%Q ->
  (_tokens self < inject_Z (Z.of_nat k) + 1)%Q ->
  taken (repeat (TryAcquire now) n) self = Nat.min n k.
Proof.
  induction n as [|n IH]; intros k now self Hnow Hlo Hhi; [reflexivity|].
  cbn [repeat taken granted perform].
  assert (Hr : _refill now self = self).
  { unfold _refill.
    assert (He : Qle_bool (now - _last self) 0 = true)
      by (apply Qle_bool_iff; lra).
    now rewrite He. }
  unfold try_acquire. rewrite Hr.
  destruct k as [|k].
  - assert (H1 : Qle_bool 1 (_tokens self) = false).
    { destruct (Qle_bool 1 (_tokens self)) eqn:E; [|reflexivity].
      apply Qle_bool_iff in E.
      change (inject_Z (Z.of_nat 0)) with 0%Q in Hhi. lra. }
    rewrite H1. cbn [fst snd]. rewrite (IH 0%nat now self); auto.
    now rewrite Nat.min_0_r.
  - rewrite count_succ in Hlo, Hhi.
    assert (Hpos : (0 <= inject_Z (Z.of_nat k))%Q).
    { change 0%Q with (inject_Z 0). rewrite <- Zle_Qle. lia. }
    assert (H1 : Qle_bool 1 (_tokens self) = true)
      by (apply Qle_bool_iff; lra).
    rewrite H1. cbn [fst snd]. rewrite (IH k now (take self));
      unfold take; cbn [_last _tokens]; [reflexivity | lra | lra | lra].
Qed.

(** X3: at one instant the bucket gives what it holds and no more.  Of [n]
    calls made at the instant of construction, exactly [min(n, k)] are
    granted, where [k] is the number of whole tokens in the capacity. *)
Theorem same_instant_grants
    (rate : Q) (cap : option Q) (now0 : Q) (self : t) (n k : nat) :
  __init__ rate cap now0 = inr self ->
  (inject_Z (Z.of_nat k) <= capacity self)%Q ->
  (capacity self < inject_Z (Z.of_nat k) + 1)%Q ->
  taken (repeat (TryAcquire now0) n) self = Nat.min n k.
Proof.
  intros Hinit Hlo Hhi. unfold __init__ in Hinit.
  destruct (Qle_bool rate 0); [discriminate|]. injection Hinit as <-.
  apply same_instant_count; simpl in *; auto. lra.
Qed.

Lemma same_instant_grants_witness :
  __init__ (5 # 2) None 0 = inr (mk (5 # 2) (5 # 2) (5 # 2) 0) /\
  taken (repeat (TryAcquire 0) 4) (mk (5 # 2) (5 # 2) (5 # 2) 0) = 2%nat.
Proof.
  split; [reflexivity|].
  apply (same_instant_grants (5 # 2) None 0 _ 4 2 eq_refl);
    vm_compute; [discriminate | reflexivity].
Defined.

Lemma starved_call c self :
  sound self -> (capacity self < 1)%Q -> granted c self = false.
Proof.
  intros Hs Hc. destruct c as [now|clock]; cbn [granted].
  - unfold try_acquire.
    destruct (refill_sound now self Hs) as (_ & Hle & _).
    rewrite refill_capacity in Hle.
    destruct (Qle_bool 1 (_tokens (_refill now self))) eqn:E; [|reflexivity].
    apply Qle_bool_iff in E. lra.
  - revert self Hs Hc. induction clock as [|now clock IH]; intros self Hs Hc;
      cbn [acquire]; [reflexivity|].
    pose proof (refill_sound now self Hs) as Hs'.
    destruct Hs' as (Hr & Hle & Hge). pose proof Hle as Hle'.
    rewrite refill_capacity in Hle'.
    destruct (Qle_bool 1 (_tokens (_refill now self))) eqn:E.
    + apply Qle_bool_iff in E. lra.
    + apply IH; [repeat split; assumption|]. now rewrite refill_capacity.
Qed.

(** X4: a bucket that cannot hold one token never gives one.  With a
    capacity below 1 (the default for a rate below 1) no call is ever
    granted, whatever the clock reads: [try_acquire] always returns
    [False] and [acquire] never returns. *)
Theorem small_capacity_starves
    (rate : Q) (cap : option Q) (now0 : Q) (self : t)
    (calls : list call) (c : call) :
  __init__ rate cap now0 = inr self ->
  (capacity self < 1)%Q ->
  taken calls self = 0%nat /\ granted c (run calls self) = false.
Proof.
  intros Hinit Hc. pose proof (init_sound _ _ _ _ Hinit) as Hs. clear Hinit.
  split.
  - revert self Hs Hc. induction calls as [|d calls IH]; intros self Hs Hc;
      [reflexivity|].
    cbn [taken]. rewrite (starved_call d self Hs Hc).
    apply IH; [now apply perform_sound | now rewrite perform_capacity].
  - apply starved_call; [now apply run_sound | now rewrite run_capacity].
Qed.

Lemma small_capacity_starves_witness :
  __init__ (1 # 2) None 0 = inr (mk (1 # 2) (1 # 2) (1 # 2) 0) /\
  (capacity (mk (1 # 2) (1 # 2) (1 # 2) 0) < 1)%Q /\
  granted (Acquire [1%Q; 10%Q; 1000%Q])
    (run [TryAcquire 5] (mk (1 # 2) (1 # 2) (1 # 2) 0)) = false.
Proof.
  assert (Hc : (capacity (mk (1 # 2) (1 # 2) (1 # 2) 0) < 1)%Q)
    by (vm_compute; reflexivity).
  split; [reflexivity|]. split; [exact Hc|].
  exact (proj2 (small_capacity_starves (1 # 2) None 0 _ [TryAcquire 5]
                  (Acquire [1%Q; 10%Q; 1000%Q]) eq_refl Hc)).
Defined.



End PacingFacts.

(** ** File names *)
Module NameFacts.
Import Pathlib Utils Trim StrFacts GuessFacts.

Lemma lstrip_starts_clean s : starts_clean (Str.lstrip s) = true.
Proof.
  induction s as [|c s IH]; simpl; [reflexivity|].
  destruct (Str.is_space c) eqn:E; [exact IH|]. simpl. now rewrite E.
Qed.

Lemma lstrip_fixed s : starts_clean s = true -> Str.lstrip s = s.
Proof.
  destruct s as [|c s]; simpl; [reflexivity|].
  destruct (Str.is_space c); [discriminate | reflexivity].
Qed.

Lemma rstrip_ends_clean s : ends_clean (Str.rstrip s) = true.
Proof.
  induction s as [|c s IH]; simpl; [reflexivity|].
  destruct (Str.rstrip s) as [|d r] eqn:E.
  - destruct (Str.is_space c) eqn:Ec; simpl; [reflexivity | now rewrite Ec].
  - exact IH.
Qed.

Lemma rstrip_fixed s : ends_clean s = true -> Str.rstrip s = s.
Proof.
  induction s as [|c s IH]; [reflexivity|]. cbn [ends_clean Str.rstrip].
  destruct s as [|d s].
  - simpl. intros H. destruct (Str.is_space c); [discriminate | reflexivity].
  - intros H. rewrite (IH H). reflexivity.
Qed.

Lemma rstrip_starts_clean s :
  starts_clean s = true -> starts_clean (Str.rstrip s) = true.
Proof.
  destruct s as [|c s]; [reflexivity|]. cbn [starts_clean Str.rstrip].
  intros Hc. destruct (Str.rstrip s).
  - apply negb_true_iff in Hc. rewrite Hc. simpl. now rewrite Hc.
  - exact Hc.
Qed.

(** [strip] leaves no whitespace at either end. *)
Lemma strip_clean_ends s :
  starts_clean (Str.strip s) = true /\ ends_clean (Str.strip s) = true.
Proof.
  unfold Str.strip. split.
  - apply rstrip_starts_clean, lstrip_starts_clean.
  - apply rstrip_ends_clean.
Qed.

Lemma strip_fixed s :
  starts_clean s = true -> ends_clean s = true -> Str.strip s = s.
Proof.
  intros Hs He. unfold Str.strip. rewrite (lstrip_fixed s Hs).
  now apply rstrip_fixed.
Qed.

Lemma strip_fixed_inv s :
  Str.strip s = s -> starts_clean s = true /\ ends_clean s = true.
Proof. intros <-. apply strip_clean_ends. Qed.

(** A replacement that turns no character into whitespace keeps the ends
    clean. *)
Lemma map_clean_ends (f : ascii -> ascii) s :
  (forall c, Str.is_space c = false -> Str.is_space (f c) = false) ->
  starts_clean s = true -> ends_clean s = true ->
  starts_clean (Str.map f s) = true /\ ends_clean (Str.map f s) = true.
Proof.
  intros Hf Hs He. split.
  - destruct s as [|c s]; [reflexivity|]. simpl in *.
    apply negb_true_iff in Hs. now rewrite (Hf c Hs).
  - clear Hs. induction s as [|c s IH]; [reflexivity|].
    cbn [Str.map]. destruct s as [|d s].
    + simpl in *. apply negb_true_iff in He. now rewrite (Hf c He).
    + cbn [Str.map] in *. cbn [ends_clean] in He. apply (IH He).
Qed.


Lemma mem_map_none (f : ascii -> ascii) (c : ascii) s :
  (forall d, f d <> c) -> Str.mem c (Str.map f s) = false.
Proof.
  intros Hf. induction s as [|d s IH]; [reflexivity|]. simpl.
  rewrite IH, orb_false_r. apply Ascii.eqb_neq. intros E.
  now apply (Hf d).
Qed.

Lemma mem_map_kept (f : ascii -> ascii) (c : ascii) s :
  (forall d, f d = c -> d = c) ->
  Str.mem c s = false -> Str.mem c (Str.map f s) = false.
Proof.
  intros Hf. induction s as [|d s IH]; [reflexivity|]. simpl.
  intros H. apply orb_false_iff in H as [Hd Hs]. rewrite (IH Hs), orb_false_r.
  apply Ascii.eqb_neq. intros E. symmetry in E. apply Hf in E.
  apply Ascii.eqb_neq in Hd. congruence.
Qed.

Lemma sanitize_unfold name :
  sanitize_filename name =
  let cleaned :=
    Str.map underscore
      (Str.replace Str.CR " " (Str.replace Str.LF " " (Str.strip name))) in
  if Str.is_empty cleaned then "download" else cleaned.
Proof. reflexivity. Qed.

Lemma sanitize_shape (name : string) :
  let r := sanitize_filename name in
  clean r /\
  Str.mem Str.LF r = false /\ Str.mem Str.CR r = false /\
  Str.strip r = r.
Proof.
  intros r. split; [apply sanitize_clean|]. subst r.
  rewrite sanitize_unfold. cbv zeta.
  set (s0 := Str.strip name).
  set (s1 := Str.replace Str.LF " " s0).
  set (s2 := Str.replace Str.CR " " s1).
  set (s3 := Str.map underscore s2).
  assert (H1 : Str.mem Str.LF s1 = false).
  { apply mem_map_none. intros d. destruct (Ascii.eqb d Str.LF) eqn:E;
      [discriminate|]. now apply Ascii.eqb_neq. }
  assert (H2 : Str.mem Str.LF s2 = false /\ Str.mem Str.CR s2 = false).
  { split.
    - apply mem_map_kept; [|exact H1]. intros d.
      destruct (Ascii.eqb d Str.CR) eqn:E; [discriminate | trivial].
    - apply mem_map_none. intros d. destruct (Ascii.eqb d Str.CR) eqn:E;
        [discriminate|]. now apply Ascii.eqb_neq. }
  assert (H3 : Str.mem Str.LF s3 = false /\ Str.mem Str.CR s3 = false).
  { destruct H2 as [Ha Hb]. unfold s3, underscore. split.
    - apply mem_map_kept; [|exact Ha]. intros d.
      destruct (is_illegal d); [discriminate | trivial].
    - apply mem_map_kept; [|exact Hb]. intros d.
      destruct (is_illegal d); [discriminate | trivial]. }
  assert (Hends : starts_clean s3 = true /\ ends_clean s3 = true).
  { destruct (strip_clean_ends name) as [Ha Hb]. fold s0 in Ha, Hb.
    assert (E1 : starts_clean s1 = true /\ ends_clean s1 = true).
    { apply map_clean_ends; auto. intros c Hc.
      destruct (Ascii.eqb c Str.LF) eqn:E; [|exact Hc].
      apply Ascii.eqb_eq in E. subst c. discriminate. }
    assert (E2 : starts_clean s2 = true /\ ends_clean s2 = true).
    { destruct E1. apply map_clean_ends; auto. intros c Hc.
      destruct (Ascii.eqb c Str.CR) eqn:E; [|exact Hc].
      apply Ascii.eqb_eq in E. subst c. discriminate. }
    destruct E2. apply map_clean_ends; auto. intros c Hc. unfold underscore.
    destruct (is_illegal c); [reflexivity | exact Hc]. }
  destruct (Str.is_empty s3).
  - repeat split; reflexivity.
  - destruct H3, Hends. repeat split; auto. now apply strip_fixed.
Qed.

(** X6: whatever it is given, [sanitize_filename] returns a name that is
    not empty, holds none of the nine replaced characters, holds no line
    feed and no carriage return, and has no whitespace at either end. *)
Theorem sanitize_output_safe (name : string) :
  let r := sanitize_filename name in
  clean r /\
  Str.mem Str.LF r = false /\ Str.mem Str.CR r = false /\
  Str.strip r = r.
Proof. exact (sanitize_shape name). Qed.



(** X8: the name [guess_filename] returns, from the header or from the
    URL, is not empty and holds none of the nine replaced characters; and
    unless it is one of the two dot names, joining it to a directory adds
    exactly one component, a direct child of that directory. *)
Theorem guessed_name_stays_inside
    (lib : PyLib) (url : string) (headers : option (gmap string string))
    (name : string) (dir : Path) :
  guess_filename url headers "download" = inr name ->
  clean name /\
  (name <> "." -> name <> ".." ->
   joinpath dir name = {| root := root dir; names := names dir ++ [name] |} /\
   is_direct_child dir (joinpath dir name) = true).
Proof.
  intros Hg. pose proof (guess_filename_clean lib url headers name Hg) as Hc.
  split; [exact Hc|]. intros Hd Hdd. now apply clean_name_direct_child.
Qed.

Lemma guessed_name_stays_inside_witness :
  guess_filename (lib := Py.model) "https://example.com/a/..%2F..%2Fetc%2Fpasswd"
    None "download" = inr ".._.._etc_passwd" /\
  joinpath (parse "downloads") ".._.._etc_passwd"
    = {| root := EmptyString; names := ["downloads"; ".._.._etc_passwd"] |}.
Proof.
  assert (Hg : guess_filename (lib := Py.model)
                 "https://example.com/a/..%2F..%2Fetc%2Fpasswd" None "download"
               = inr ".._.._etc_passwd") by (vm_compute; reflexivity).
  split; [exact Hg|].
  destruct (guessed_name_stays_inside Py.model _ _ _ (parse "downloads") Hg)
    as [_ H].
  apply H; discriminate.
Defined.

(** X9: only two header names count.  The name found in the headers
    depends on the values under [Content-Disposition] and
    [content-disposition] alone, whatever else the mapping holds (any
    other spelling of the name is not looked at); and a non-empty value
    under the first hides the second. *)
Theorem only_two_header_names
    (h h' : gmap string string) (cd lower : string) :
  (h !! "Content-Disposition" = h' !! "Content-Disposition" ->
   h !! "content-disposition" = h' !! "content-disposition" ->
   header_candidate (Some h) = header_candidate (Some h')) /\
  (cd <> EmptyString ->
   header_candidate
     (Some (<["Content-Disposition" := cd]>
              (<["content-disposition" := lower]> h)))
   = header_candidate (Some {[ "Content-Disposition" := cd ]})) /\
  header_candidate (Some {[ "CONTENT-DISPOSITION" := cd ]}) = None.
Proof.
  assert (Hkey : forall m : gmap string string,
            header_candidate (Some m) =
            let cd := or_ (m !! "Content-Disposition")
                          (m !! "content-disposition") in
            if truthy cd then
              match Re.search _filename_re (default EmptyString cd) with
              | Some mt =>
                  let candidate := or_ (Re.group mt 1) (Re.group mt 2) in
                  if truthy candidate then candidate else None
              | None => None
              end
            else None).
  { intros m. unfold header_candidate. case_bool_decide as He; [|reflexivity].
    subst m. rewrite !lookup_empty. reflexivity. }
  split; [|split].
  - intros H1 H2. rewrite !Hkey. cbv zeta. now rewrite H1, H2.
  - intros Hne. rewrite !Hkey. cbv zeta.
    rewrite lookup_insert_eq, lookup_singleton_eq.
    rewrite lookup_singleton_ne by discriminate.
    unfold or_ at 1 3. unfold or_ at 2 4.
    destruct cd; [contradiction|]. reflexivity.
  - rewrite Hkey. cbv zeta. rewrite !lookup_singleton_ne by discriminate.
    reflexivity.
Qed.

(** *** The pattern *)

Lemma first_down_some {A} (f : nat -> option A) (lo : nat) (r : A) :
  forall n, Re.first_down f lo n = Some r ->
  exists k, (k <= lo + n)%nat /\ f k = Some r.
Proof.
  induction n as [|n IH]; cbn [Re.first_down].
  - destruct (f (lo + 0)%nat) eqn:E; [|discriminate].
    intros [= <-]. exists (lo + 0)%nat. auto.
  - destruct (f (lo + S n)%nat) eqn:E.
    + intros [= <-]. exists (lo + S n)%nat. auto.
    + intros H. destruct (IH H) as (k & Hk & Hf). exists k. split; [lia|auto].
Qed.

Lemma run_take ic a : forall (k : nat) (s : string),
  (k <= Re.run ic a s)%nat ->
  every (Re.accepts ic a) (Str.take k s) = true.
Proof.
  induction k as [|k IH]; intros s Hk; [reflexivity|].
  destruct s as [|c s]; [reflexivity|]. cbn [Re.run] in Hk.
  cbn [Str.take every]. destruct (Re.accepts ic a c); [|lia].
  apply IH. lia.
Qed.

Lemma captured_weaken ic it items c :
  Captures.captured_by ic items c -> Captures.captured_by ic (it :: items) c.
Proof. intros (i & Hi & H). exists i. split; [now right | exact H]. Qed.

(** Every group of a match holds text that the atom of its item accepts. *)
Lemma match_items_captures ic (items : list Re.item) :
  forall (s : string) (m : Re.match_),
    Re.match_items ic items s = Some m ->
    Forall (Captures.captured_by ic items) m.
Proof.
  induction items as [|it items IH]; intros s m; cbn [Re.match_items].
  - intros [= <-]. constructor.
  - set (n := Re.run ic (Re.it_atom it) s).
    set (continue := fun k : nat =>
           Re.capture (Re.it_group it) (Str.take k s)
             <$> Re.match_items ic items (Str.drop k s)).
    assert (Hk : forall k, (k <= n)%nat -> continue k = Some m ->
                   Forall (Captures.captured_by ic (it :: items)) m).
    { intros k Hk. unfold continue.
      destruct (Re.match_items ic items (Str.drop k s)) as [m'|] eqn:Hm;
        [|discriminate].
      intros [= <-]. apply IH in Hm.
      assert (Hw : Forall (Captures.captured_by ic (it :: items)) m').
      { eapply Forall_impl; [exact Hm|]. intros c. apply captured_weaken. }
      unfold Re.capture. destruct (Re.it_group it) as [g|] eqn:Hg; [|exact Hw].
      constructor; [|exact Hw]. exists it. split; [now left|].
      split; [exact Hg|]. simpl. now apply run_take. }
    destruct (Re.it_quant it).
    + destruct (1 <=? n)%nat eqn:E; [|discriminate]. apply Nat.leb_le in E.
      apply Hk. exact E.
    + intros H. apply first_down_some in H as (k & Hle & Hc).
      apply (Hk k); [lia | exact Hc].
    + intros H. apply first_down_some in H as (k & Hle & Hc).
      apply (Hk k); [lia | exact Hc].
    + destruct (1 <=? n)%nat eqn:E; [|discriminate]. apply Nat.leb_le in E.
      intros H. apply first_down_some in H as (k & Hle & Hc).
      apply (Hk k); [lia | exact Hc].
Qed.

Lemma match_alternatives_from ic (alts : list (list Re.item)) s m :
  Re.match_alternatives ic alts s = Some m ->
  exists a, In a alts /\ Re.match_items ic a s = Some m.
Proof.
  induction alts as [|a alts IH]; cbn [Re.match_alternatives]; [discriminate|].
  destruct (Re.match_items ic a s) eqn:E.
  - intros [= <-]. exists a. split; [now left | exact E].
  - intros H. destruct (IH H) as (b & Hb & Hm). exists b. split; [now right|auto].
Qed.

Lemma search_from (p : Re.pattern) : forall s m,
  Re.search p s = Some m ->
  exists a s', In a (Re.alternatives p) /\
               Re.match_items (Re.ignorecase p) a s' = Some m.
Proof.
  induction s as [|c s IH]; intros m; cbn [Re.search].
  - destruct (Re.match_alternatives _ _ _) eqn:E; [|discriminate].
    intros [= <-]. apply match_alternatives_from in E as (a & Ha & Hm). eauto.
  - destruct (Re.match_alternatives _ _ _) eqn:E.
    + intros [= <-]. apply match_alternatives_from in E as (a & Ha & Hm). eauto.
    + apply IH.
Qed.

Lemma group_in (m : Re.match_) (k : nat) (text : string) :
  Re.group m k = Some text -> In (k, text) m.
Proof.
  unfold Re.group. destruct (List.find _ m) as [[g t]|] eqn:E; [|discriminate].
  intros [= <-]. apply List.find_some in E as [Hin Hg]. simpl in Hg.
  apply Nat.eqb_eq in Hg. now subst g.
Qed.

Lemma none_of_excludes ic (cs : list ascii) (c : ascii) : forall text,
  In c cs -> every (Re.accepts ic (Re.NoneOf cs)) text = true ->
  Str.mem c text = false.
Proof.
  intros text Hin. induction text as [|d text IH]; [reflexivity|].
  cbn [every Str.mem Re.accepts]. intros H.
  apply andb_true_iff in H as [Hd Ht]. rewrite (IH Ht), orb_false_r.
  apply negb_true_iff in Hd. apply Ascii.eqb_neq. intros <-.
  assert (Hex : existsb (Ascii.eqb c) cs = true).
  { apply List.existsb_exists. exists c. split; [exact Hin|].
    apply Ascii.eqb_refl. }
  congruence.
Qed.

(** The groups of [_filename_re] never hold a semicolon. *)
Lemma filename_groups (text : string) (k : nat) (m : Re.match_) (s : string) :
  Re.search _filename_re s = Some m -> Re.group m k = Some text ->
  Str.mem ";" text = false.
Proof.
  intros Hs Hg. apply search_from in Hs as (a & s' & Ha & Hm).
  apply match_items_captures in Hm. apply group_in in Hg.
  rewrite List.Forall_forall in Hm. destruct (Hm _ Hg) as (it & Hin & Hgr & Hev).
  simpl in Hgr, Hev. cbn in Ha.
  destruct Ha as [<-|[<-|[]]]; cbn in Hin;
    repeat (destruct Hin as [<-|Hin]; [try discriminate|]);
    try contradiction;
    cbn [Re.it_atom] in Hev;
    (eapply none_of_excludes; [|exact Hev]); simpl; auto.
Qed.

(** X10: the name that the pattern takes from a Content-Disposition value
    is never empty and never holds a semicolon, the separator of the
    header's parameters. *)
Theorem header_name_has_no_semicolon
    (headers : option (gmap string string)) (c : string) :
  header_candidate headers = Some c ->
  c <> EmptyString /\ Str.mem ";" c = false.
Proof.
  unfold header_candidate. destruct headers as [h|]; [|discriminate].
  case_bool_decide; [discriminate|].
  destruct (truthy (or_ _ _)); [|discriminate].
  destruct (Re.search _filename_re _) as [m|] eqn:Hs; [|discriminate].
  cbv zeta. destruct (truthy (or_ (Re.group m 1) (Re.group m 2))) eqn:Ht;
    [|discriminate].
  intros Hc. split.
  - intros ->. rewrite Hc in Ht. discriminate.
  - unfold or_ in Hc. destruct (truthy (Re.group m 1)).
    + exact (filename_groups _ _ _ _ Hs Hc).
    + exact (filename_groups _ _ _ _ Hs Hc).
Qed.

Lemma header_name_has_no_semicolon_witness :
  header_candidate
    (Some {[ "Content-Disposition" :=
               "attachment; filename=report.pdf; size=12" ]})
    = Some "report.pdf" /\
  Str.mem ";" "report.pdf" = false.
Proof.
  assert (H : header_candidate
                (Some {[ "Content-Disposition" :=
                           "attachment; filename=report.pdf; size=12" ]})
              = Some "report.pdf") by (vm_compute; reflexivity).
  split; [exact H|]. exact (proj2 (header_name_has_no_semicolon _ _ H)).
Defined.

End NameFacts.

(** ** Where [dedupe_path] puts a file *)
Module PlaceFacts.
Import Pathlib Utils StrFacts DedupeFacts.

Lemma mem_take c n : forall s,
  Str.mem c s = false -> Str.mem c (Str.take n s) = false.
Proof.
  induction n as [|n IH]; intros [|d s]; simpl; auto.
  intros H. apply orb_false_iff in H as [H1 H2]. now rewrite H1, IH.
Qed.

Lemma mem_drop c n : forall s,
  Str.mem c s = false -> Str.mem c (Str.drop n s) = false.
Proof.
  induction n as [|n IH]; intros [|d s]; simpl; auto.
  intros H. apply orb_false_iff in H as [H1 H2]. now apply IH.
Qed.

Lemma take_drop n : forall s, (Str.take n s ++ Str.drop n s)%string = s.
Proof.
  induction n as [|n IH]; intros [|d s]; simpl; auto.
  push_append. now rewrite IH.
Qed.

Lemma drop_app (a b : string) : Str.drop (String.length a) (a ++ b) = b.
Proof. induction a as [|x a IH]; push_append; simpl; auto. Qed.

Lemma take_app (a b : string) : Str.take (String.length a) (a ++ b) = a.
Proof.
  induction a as [|x a IH]; push_append; simpl.
  - destruct b; reflexivity.
  - now rewrite IH.
Qed.

Lemma rfind_none c s : Str.mem c s = false -> Str.rfind c s = None.
Proof.
  induction s as [|d s IH]; simpl; [reflexivity|].
  intros H. apply orb_false_iff in H as [H1 H2]. rewrite (IH H2).
  rewrite Ascii.eqb_sym. now rewrite H1.
Qed.

(** The last occurrence splits the text: it is followed by a rest that
    holds no other. *)
Lemma rfind_some c : forall s k,
  Str.rfind c s = Some k ->
  exists rest, Str.drop k s = String c rest /\ Str.mem c rest = false.
Proof.
  induction s as [|d s IH]; intros k; simpl; [discriminate|].
  destruct (Str.rfind c s) as [i|] eqn:E.
  - intros [= <-]. simpl. exact (IH i eq_refl).
  - destruct (Ascii.eqb d c) eqn:Hd; [|discriminate].
    intros [= <-]. apply Ascii.eqb_eq in Hd. subst d. simpl.
    exists s. split; [reflexivity|].
    destruct (Str.mem c s) eqn:Hm; [|reflexivity].
    exfalso. clear IH. induction s as [|x s IH]; simpl in *; [discriminate|].
    destruct (Str.rfind c s); [discriminate|].
    rewrite Ascii.eqb_sym in Hm. destruct (Ascii.eqb x c); [discriminate|].
    simpl in Hm. auto.
Qed.

Lemma rfind_app c (a rest : string) :
  Str.mem c rest = false ->
  Str.rfind c (a ++ String c rest) = Some (String.length a).
Proof.
  intros Hm. induction a as [|x a IH]; push_append; simpl.
  - now rewrite (rfind_none _ _ Hm), Ascii.eqb_refl.
  - now rewrite IH.
Qed.

Lemma leading_slashes_none (s : string) :
  Str.mem slash s = false -> leading_slashes s = 0%nat.
Proof.
  destruct s as [|c s]; [reflexivity|]. cbn [Str.mem leading_slashes].
  intros H. apply orb_false_iff in H as [H _].
  rewrite Ascii.eqb_sym. now rewrite H.
Qed.

Lemma stem_no_slash (path : Path) :
  Str.mem slash (name path) = false -> Str.mem slash (stem path) = false.
Proof.
  intros H. unfold stem. destruct (suffix_start (name path));
    [now apply mem_take | exact H].
Qed.

Lemma suffix_no_slash (path : Path) :
  Str.mem slash (name path) = false -> Str.mem slash (suffix path) = false.
Proof.
  intros H. unfold suffix. destruct (suffix_start (name path));
    [now apply mem_drop | reflexivity].
Qed.

(** The candidate of a plain name: the same directory and the numbered
    name as its one new component. *)
Lemma candidate_plain (path : Path) (i : Z) :
  Str.mem slash (name path) = false ->
  candidate path i =
    {| root := root path;
       names := (List.removelast (names path)
                 ++ [numbered (stem path) (suffix path) i])%list |}.
Proof.
  intros H. unfold candidate, joinpath.
  assert (Hn : Str.mem slash (numbered (stem path) (suffix path) i) = false).
  { rewrite numbered_mark, !mem_append, mark_no_slash,
      (stem_no_slash _ H), (suffix_no_slash _ H). reflexivity. }
  assert (Hp : parse (numbered (stem path) (suffix path) i) =
               {| root := EmptyString;
                  names := [numbered (stem path) (suffix path) i] |}).
  { unfold parse. rewrite (leading_slashes_none _ Hn), (split_none _ _ Hn).
    cbn [List.filter]. rewrite kept_with_paren; [reflexivity|].
    rewrite numbered_mark, !mem_append, mark_paren.
    now rewrite orb_true_r. }
  rewrite Hp. reflexivity.
Qed.

Lemma mark_length (i : Z) : (0 < String.length (mark i))%nat.
Proof. unfold mark. push_append. simpl. lia. Qed.

(** A numbered name keeps the suffix of the name it comes from. *)
Lemma numbered_suffix (path : Path) (i : Z) :
  suffix path <> EmptyString ->
  suffix_start (numbered (stem path) (suffix path) i) =
    Some (String.length (stem path ++ mark i)).
Proof.
  unfold suffix, stem. destruct (suffix_start (name path)) as [k|] eqn:Hk;
    [|congruence].
  intros _. unfold suffix_start in Hk.
  destruct (Str.rfind "." (name path)) as [j|] eqn:Hj; [|discriminate].
  destruct ((0 <? j)%nat && (j <? String.length (name path) - 1)%nat) eqn:Hb;
    [|discriminate].
  injection Hk as <-.
  destruct (rfind_some _ _ _ Hj) as (rest & Hd & Hm).
  apply andb_true_iff in Hb as [_ Hb]. apply Nat.ltb_lt in Hb.
  assert (Hlen : String.length (name path) =
                 (String.length (Str.take j (name path))
                  + S (String.length rest))%nat).
  { rewrite <- (take_drop j (name path)) at 1.
    rewrite length_append, Hd. reflexivity. }
  assert (Hj' : (String.length (Str.take j (name path)) <= j)%nat).
  { clear. revert j. induction (name path) as [|c s IH]; intros [|j]; simpl;
      try lia. specialize (IH j). lia. }
  rewrite numbered_mark, Hd, <- append_assoc.
  unfold suffix_start. rewrite (rfind_app _ _ _ Hm).
  rewrite !length_append. cbn [String.length].
  pose proof (mark_length i) as Hml.
  replace ((0 <? _)%nat && _) with true; [reflexivity|].
  symmetry. apply andb_true_iff. split; apply Nat.ltb_lt; lia.
Qed.

Lemma suffix_of_name (p : Path) (n : string) :
  name p = n ->
  suffix p = match suffix_start n with
             | Some i => Str.drop i n
             | None => EmptyString
             end.
Proof. intros <-. reflexivity. Qed.

Lemma stem_of_name (p : Path) (n : string) :
  name p = n ->
  stem p = match suffix_start n with
           | Some i => Str.take i n
           | None => n
           end.
Proof. intros <-. reflexivity. Qed.

(** X11: where [dedupe_path] puts a file whose name holds no slash.  The
    path it returns does not exist yet and lies in the same directory; it
    is the path itself or carries the name [stem(i)suffix] for some
    [i >= 1]; and when the name has a suffix, the new name has the same
    suffix and the stem with the number after it. *)
Theorem deduped_keeps_place (fs : list Path) (path r : Path) :
  Str.mem slash (name path) = false ->
  dedupe_path fs path = Some r ->
  exists_ fs r = false /\
  parent r = parent path /\
  (r = path \/
   exists i : Z,
     1 <= i /\
     name r = (stem path ++ "(" ++ Str.of_int i ++ ")" ++ suffix path)%string /\
     (suffix path <> EmptyString ->
      suffix r = suffix path /\
      stem r = (stem path ++ "(" ++ Str.of_int i ++ ")")%string)).
Proof.
  intros Hname Hd. unfold dedupe_path in Hd.
  destruct (exists_ fs path) eqn:E; cbn [negb] in Hd.
  - apply dedupe_loop_some in Hd as (k & _ & -> & Hfree & _).
    set (i := 1 + Z.of_nat k) in *.
    split; [exact Hfree|]. rewrite (candidate_plain _ _ Hname).
    split; [unfold parent; cbn [root names];
            now rewrite List.removelast_last|].
    right. exists i. split; [lia|].
    assert (Hn : name {| root := root path;
                         names := (List.removelast (names path)
                           ++ [numbered (stem path) (suffix path) i])%list |}
                 = numbered (stem path) (suffix path) i)
      by (unfold name; cbn [names]; apply List.last_last).
    split; [exact Hn|]. intros Hs.
    rewrite (suffix_of_name _ _ Hn), (stem_of_name _ _ Hn),
      (numbered_suffix _ i Hs).
    rewrite numbered_mark, <- append_assoc. split.
    + apply drop_app.
    + rewrite take_app. reflexivity.
  - injection Hd as <-. split; [exact E|]. split; [reflexivity|].
    now left.
Qed.

Lemma deduped_keeps_place_witness :
  Str.mem slash (name (parse "downloads/a.tar.gz")) = false /\
  exists r,
    dedupe_path [parse "downloads/a.tar.gz"; parse "downloads/a.tar(1).gz"]
      (parse "downloads/a.tar.gz") = Some r /\
    parent r = parse "downloads" /\ suffix r = ".gz".
Proof.
  assert (Hn : Str.mem slash (name (parse "downloads/a.tar.gz")) = false)
    by reflexivity.
  split; [exact Hn|]. exists (parse "downloads/a.tar(2).gz").
  assert (Hd : dedupe_path
                 [parse "downloads/a.tar.gz"; parse "downloads/a.tar(1).gz"]
                 (parse "downloads/a.tar.gz")
               = Some (parse "downloads/a.tar(2).gz"))
    by (vm_compute; reflexivity).
  split; [exact Hd|].
  destruct (deduped_keeps_place _ _ _ Hn Hd) as (_ & Hp & _).
  split; [exact Hp | reflexivity].
Defined.

End PlaceFacts.

(** ** Downloads *)
Module WorkerFacts.
Import Pathlib Utils Downloader Retries BackoffFacts RetryFacts DownloadFacts.



Section Worker.
Context {lib : PyLib} (self : DownloadManager) (w : world) (url : string).







End Worker.







End WorkerFacts.

(** ** The coordinator and the command line *)
Module CoordinatorFacts.
Import Pathlib Utils Downloader BackoffFacts RetryFacts DownloadFacts.

Lemma returns_inj (rs rs' : list Result) :
  Returns <$> rs = Returns <$> rs' -> rs = rs'.
Proof.
  revert rs'. induction rs as [|r rs IH]; intros [|r' rs']; simpl;
    try discriminate; [reflexivity|].
  intros [= -> E]. f_equal. auto.
Qed.

(** X15: one result for each URL.  When [download_many] returns, the list
    has as many results as URLs were submitted, and the URLs of the
    results are the submitted ones in some order; it returns as soon as
    every worker returns; and another order of completion gives the same
    results in another order. *)
Theorem one_result_per_url
    (lib : PyLib) (self : DownloadManager) (worlds : nat -> world)
    (sched sched' : list nat) (urls : list string) :
  (forall rs, download_many self worlds sched urls = Returns rs ->
     List.length rs = List.length urls /\
     Permutation (Downloader.url <$> rs) urls /\
     exists rs', download_many self worlds sched' urls = Returns rs' /\
                 Permutation rs rs') /\
  ((forall i u, urls !! i = Some u ->
      exists r, _download_one self (worlds i) u = Returns r) ->
   exists rs, download_many self worlds sched urls = Returns rs).
Proof.
  assert (Hall : forall rs s, download_many self worlds s urls = Returns rs ->
            Forall (fun o => exists q, o = Returns q)
                   (imap (fun i u => _download_one self (worlds i) u) urls)).
  { intros rs s Hm.
    destruct (download_many_returns self worlds s urls rs Hm) as (Hp & _).
    apply (Permutation_Forall Hp). apply Forall_fmap, Forall_true.
    intros q. simpl. eauto. }
  split.
  - intros rs Hm.
    destruct (download_many_returns self worlds sched urls rs Hm)
      as (Hp & Hlen & Hu).
    split; [exact Hlen|]. split; [exact Hu|].
    destruct (download_many_when_all_return self worlds sched' urls
                (Hall rs sched Hm)) as [rs' Hm'].
    exists rs'. split; [exact Hm'|].
    destruct (download_many_returns self worlds sched' urls rs' Hm')
      as (Hp' & _).
    assert (Hpp : Permutation (Returns <$> rs) (Returns <$> rs'))
      by (rewrite Hp, Hp'; reflexivity).
    apply Permutation_map_inv in Hpp as (l3 & E & Hl3).
    apply returns_inj in E. subst l3. now symmetry.
  - intros Hworkers. apply download_many_when_all_return.
    apply Forall_lookup. intros i o Hi.
    apply list_lookup_imap_Some in Hi as (u & Hu & ->).
    exact (Hworkers i u Hu).
Qed.



End CoordinatorFacts.

(** ** The manager *)
Module ManagerFacts.
Import Pathlib Utils Downloader Pacing.

Lemma init_inr (output_dir : Path) rate concurrency retries timeout
    user_agent no_clobber verbose now mgr :
  Downloader.__init__ output_dir rate concurrency retries timeout user_agent
    no_clobber verbose now = inr mgr ->
  (0 < rate)%Q /\ 0 < concurrency /\
  Downloader.output_dir mgr = output_dir /\
  Downloader.retries mgr = retries /\
  Downloader.no_clobber mgr = no_clobber /\
  max_workers mgr = concurrency /\
  RateLimiter.rate (_limiter mgr) = rate /\
  RateLimiter.capacity (_limiter mgr) = Qmax rate 1 /\
  RateLimiter._tokens (_limiter mgr) = Qmax rate 1 /\
  Downloader.user_agent mgr <> EmptyString.
Proof.
  unfold Downloader.__init__, RateLimiter.__init__.
  destruct (Qle_bool rate 0) eqn:Hr; [discriminate|].
  destruct (concurrency <=? 0) eqn:Hc; [discriminate|].
  intros [= <-]. simpl.
  apply RateLimiterFacts.Qle_bool_false in Hr. apply Z.leb_gt in Hc.
  repeat (split; [first [exact Hr | exact Hc | reflexivity]|]).
  destruct user_agent as [[|c s]|]; simpl; discriminate.
Qed.

(** X17: a manager that was built is ready to work.  Its User-Agent is
    never empty (a missing or empty one is replaced, any other is kept);
    its limiter holds [max(rate, 1)] tokens, so at least one: requests no
    more than the rate, and always the first one, pass the limiter without
    waiting, whatever the clock reads. *)
Theorem manager_is_ready (output_dir : Path) (rate : Q) (concurrency : Z)
    (retries : Z) (timeout : Q) (user_agent : option string)
    (no_clobber verbose : bool) (now : Q) (mgr : DownloadManager)
    (times : list Q) (t : Q) :
  Downloader.__init__ output_dir rate concurrency retries timeout user_agent
    no_clobber verbose now = inr mgr ->
  Downloader.user_agent mgr <> EmptyString /\
  (forall ua, user_agent = Some ua -> ua <> EmptyString ->
     Downloader.user_agent mgr = ua) /\
  (1 <= RateLimiter.capacity (_limiter mgr))%Q /\
  (rate <= RateLimiter.capacity (_limiter mgr))%Q /\
  ((inject_Z (Z.of_nat (List.length times)) <= rate)%Q ->
   taken ((fun now => RateLimiter.Acquire [now]) <$> times) (_limiter mgr)
     = List.length times) /\
  granted (RateLimiter.Acquire [t]) (_limiter mgr) = true.
Proof.
  intros Hi.
  destruct (init_inr _ _ _ _ _ _ _ _ _ _ Hi)
    as (Hr & Hc & _ & _ & _ & _ & Hrate & Hcap & Htok & Hua).
  assert (Hs : RateLimiter.sound (_limiter mgr)).
  { unfold Downloader.__init__ in Hi.
    destruct (RateLimiter.__init__ rate (Some (Qmax rate 1)) now)
      as [e|limiter] eqn:Hl; [discriminate|].
    destruct (concurrency <=? 0); [discriminate|].
    injection Hi as <-. simpl.
    exact (RateLimiterFacts.init_sound _ _ _ _ Hl). }
  assert (Hacq : forall ts self,
            taken ((fun now => RateLimiter.Acquire [now]) <$> ts) self =
            taken (RateLimiter.TryAcquire <$> ts) self).
  { clear. induction ts as [|x ts IH]; intros self; [reflexivity|].
    rewrite !fmap_cons. cbn [taken]. rewrite <- IH.
    cbn [granted RateLimiter.perform RateLimiter.acquire].
    unfold RateLimiter.try_acquire.
    destruct (Qle_bool 1 (RateLimiter._tokens (RateLimiter._refill x self)));
      reflexivity. }
  split; [exact Hua|]. split.
  { intros ua -> Hne. unfold Downloader.__init__ in Hi.
    destruct (RateLimiter.__init__ rate (Some (Qmax rate 1)) now);
      [discriminate|].
    destruct (concurrency <=? 0); [discriminate|].
    injection Hi as <-. simpl. destruct ua; [congruence | reflexivity]. }
  split; [rewrite Hcap; apply Q.le_max_r|].
  split; [rewrite Hcap; apply Q.le_max_l|]. split.
  - intros Hn. rewrite Hacq. apply PacingFacts.burst_granted; [exact Hs|].
    rewrite Htok. pose proof (Q.le_max_l rate 1). lra.
  - pose proof (PacingFacts.burst_granted [t] (_limiter mgr) Hs) as H1.
    rewrite <- Hacq in H1. cbn [fmap list_fmap taken] in H1.
    destruct (granted (RateLimiter.Acquire [t]) (_limiter mgr));
      [reflexivity|].
    assert (E : (0 + 0)%nat = List.length [t]); [|discriminate E].
    apply H1. rewrite Htok. pose proof (Q.le_max_r rate 1).
    change (inject_Z (Z.of_nat (List.length [t]))) with 1%Q. lra.
Qed.

Lemma manager_is_ready_witness :
  exists mgr,
    Downloader.__init__ (parse "downloads") (1 # 2) 4 3 20 (Some EmptyString)
      false false 0 = inr mgr /\
    Downloader.user_agent mgr = "rlget/0.1 (+https://example.local)" /\
    granted (RateLimiter.Acquire [7%Q]) (_limiter mgr) = true.
Proof.
  eexists. split; [reflexivity|]. split; [reflexivity|].
  exact (proj2 (proj2 (proj2 (proj2 (proj2
    (manager_is_ready (parse "downloads") (1 # 2) 4 3 20 (Some EmptyString)
       false false 0 _ [] 7 eq_refl)))))).
Defined.

End ManagerFacts.

(** ** The command line *)
Module CliFacts.
Import Pathlib Utils Downloader RetryFacts DownloadFacts.

Lemma report_loop_spec (results : list Result) (n : Z)
    (printed : list string) :
  Cli.report_loop results n printed =
    (n + Z.of_nat (List.length (List.filter ok results)),
     (printed ++ (Cli.line <$> results))%list).
Proof.
  revert n printed. induction results as [|r results IH]; intros n printed.
  - simpl. now rewrite Z.add_0_r, app_nil_r.
  - simpl List.filter. cbn [Cli.report_loop fmap list_fmap].
    unfold Cli.line at 1.
    destruct (ok r); rewrite IH, <- app_assoc; simpl List.length;
      simpl app; f_equal; lia.
Qed.

Lemma filter_ok_le (results : list Result) :
  (List.length (List.filter ok results) <= List.length results)%nat.
Proof.
  induction results as [|r results IH]; simpl; [lia|].
  destruct (ok r); simpl; lia.
Qed.

Lemma filter_ok_all (results : list Result) :
  List.length (List.filter ok results) = List.length results <->
  Forall (fun r => ok r = true) results.
Proof.
  induction results as [|r results IH]; simpl.
  - split; [constructor | reflexivity].
  - pose proof (filter_ok_le results) as Hle.
    destruct (ok r) eqn:Hr; simpl.
    + split.
      * intros [= H]. constructor; [exact Hr | now apply IH].
      * intros H. inversion H; subst. f_equal. now apply IH.
    + split; [lia|]. intros H. inversion H; subst. congruence.
Qed.

Lemma some_failed (results : list Result) :
  Forall (fun r => ok r = true) results \/
  Exists (fun r => ok r = false) results.
Proof.
  induction results as [|r results [IH|IH]].
  - left. constructor.
  - destruct (ok r) eqn:Hr.
    + left. now constructor.
    + right. now apply Exists_cons_hd.
  - right. now apply Exists_cons_tl.
Qed.

Lemma report_code (results : list Result) :
  snd (Cli.report results) = 0 <-> Forall (fun r => ok r = true) results.
Proof.
  unfold Cli.report. rewrite report_loop_spec. cbv beta iota zeta. simpl snd.
  rewrite <- filter_ok_all.
  destruct (Z.eqb_spec
              (0 + Z.of_nat (List.length (List.filter ok results)))
              (Z.of_nat (List.length results))) as [E|E].
  - split; [lia | reflexivity].
  - split; [discriminate | lia].
Qed.

Lemma report_lines (results : list Result) :
  fst (Cli.report results) =
    ((Cli.line <$> results) ++
     [Cli.summary (Z.of_nat (List.length (List.filter ok results)))
                  (Z.of_nat (List.length results))])%list.
Proof.
  unfold Cli.report. rewrite report_loop_spec. cbv beta iota zeta. simpl fst.
  reflexivity.
Qed.

(** X18: the report of [main].  The exit code is 0 exactly when every
    result is [ok], and 1 exactly when some result is not; the lines
    printed are one line for each result, in the order of the results
    ([OK] or [ERR], by the flag of the result), and then the summary, which
    counts the results that are [ok] over all results. *)
Theorem exit_code_tells_failures (results : list Result) :
  (snd (Cli.report results) = 0 <->
   Forall (fun r => ok r = true) results) /\
  (snd (Cli.report results) = 1 <->
   Exists (fun r => ok r = false) results) /\
  (forall i r, results !! i = Some r ->
     fst (Cli.report results) !! i =
       Some (if ok r then Cli.ok_line r else Cli.err_line r)) /\
  fst (Cli.report results) !! List.length results =
    Some (Cli.summary
            (Z.of_nat (List.length (List.filter ok results)))
            (Z.of_nat (List.length results))) /\
  List.length (fst (Cli.report results)) = S (List.length results).
Proof.
  pose proof (report_code results) as H0.
  split; [exact H0|]. split; [|split; [|split]].
  - assert (Hc : snd (Cli.report results) = 0 \/
                 snd (Cli.report results) = 1).
    { unfold Cli.report. destruct (Cli.report_loop results 0 []) as [n p].
      cbv beta iota zeta. simpl snd.
      destruct (n =? Z.of_nat (List.length results)); auto. }
    split.
    + intros H1. destruct (some_failed results) as [Hall|Hex];
        [apply H0 in Hall; lia | exact Hex].
    + intros Hex. destruct Hc as [Hc|Hc]; [|exact Hc].
      apply H0 in Hc. apply Exists_exists in Hex as (r & Hin & Hr).
      rewrite Forall_forall in Hc. specialize (Hc r Hin). congruence.
  - intros i r Hi. rewrite report_lines.
    rewrite lookup_app_l
      by (rewrite length_fmap; eapply lookup_lt_Some; exact Hi).
    rewrite list_lookup_fmap, Hi. reflexivity.
  - rewrite report_lines.
    rewrite lookup_app_r by (rewrite length_fmap; lia).
    rewrite length_fmap, Nat.sub_diag. reflexivity.
  - rewrite report_lines, length_app, length_fmap. simpl. lia.
Qed.

(** X19: the exit code of [main].  When [main] returns, the rate and the
    number of workers were positive, it printed one line for each URL and
    the summary, and its exit code is 0 exactly when the worker of every
    URL of the command line returned a result that is [ok]. *)
Theorem main_exit_code (lib : PyLib) (args : Cli.Args) (now : Q)
    (worlds : nat -> world) (sched : list nat) (lines : list string)
    (code : Z) :
  Cli.main args now worlds sched = Returns (lines, code) ->
  (0 < Cli.rate args)%Q /\ 0 < Cli.concurrency args /\
  List.length lines = S (List.length (Cli.URL args)) /\
  exists mgr,
    Downloader.__init__ (parse (Cli.output args)) (Cli.rate args)
      (Cli.concurrency args) (Cli.retries args) (Cli.timeout args)
      (Cli.user_agent args) (Cli.no_clobber args) (Cli.verbose args) now
      = inr mgr /\
    (code = 0 <->
     forall i u, Cli.URL args !! i = Some u ->
       exists r, _download_one mgr (worlds i) u = Returns r /\
                 ok r = true).
Proof.
  unfold Cli.main.
  destruct (Downloader.__init__ _ _ _ _ _ _ _ _ _) as [e|mgr] eqn:Hi;
    [discriminate|].
  destruct (download_many mgr worlds sched (Cli.URL args)) as [rs|e|] eqn:Hm;
    try discriminate.
  intros [= Hrep].
  destruct (ManagerFacts.init_inr _ _ _ _ _ _ _ _ _ _ Hi) as (Hr & Hc & _).
  destruct (download_many_returns mgr worlds sched _ rs Hm)
    as (Hp & Hlen & _).
  assert (Hl : lines = fst (Cli.report rs)) by now rewrite Hrep.
  assert (Hcode : code = snd (Cli.report rs)) by now rewrite Hrep.
  split; [exact Hr|]. split; [exact Hc|]. split.
  { rewrite Hl, report_lines, length_app, length_fmap. simpl. lia. }
  exists mgr. split; [reflexivity|].
  rewrite Hcode, report_code. split.
  - intros Hall i u Hu.
    assert (Hin : _download_one mgr (worlds i) u ∈
                  imap (fun i u => _download_one mgr (worlds i) u)
                       (Cli.URL args))
      by exact (elem_of_lookup_imap_2
                  (fun i u => _download_one mgr (worlds i) u) _ _ _ Hu).
    rewrite <- Hp in Hin.
    apply list_elem_of_fmap_1 in Hin as (r & E & Hr').
    exists r. split; [exact E|].
    rewrite Forall_forall in Hall. apply Hall. exact Hr'.
  - intros Hw. apply Forall_forall. intros r Hin.
    assert (Hin' : Returns r ∈ Returns <$> rs)
      by (apply list_elem_of_fmap_2; exact Hin).
    rewrite Hp in Hin'.
    apply elem_of_lookup_imap_1 in Hin' as (i & u & E & Hu).
    destruct (Hw i u Hu) as (r' & E' & Hok). congruence.
Qed.

Lemma main_exit_code_witness :
  exists lines,
    Cli.main (lib := Py.model) (Cli.defaults ["http://127.0.0.1:8000/ok"]) 0
      (fun _ => Scenario.ok_endpoint) [] = Returns (lines, 0) /\
    List.length lines = 2%nat.
Proof.
  exists ["OK  http://127.0.0.1:8000/ok -> downloads/ok.bin";
          String Str.LF "Summary: 1/1 succeeded"].
  assert (H : Cli.main (lib := Py.model)
                (Cli.defaults ["http://127.0.0.1:8000/ok"]) 0
                (fun _ => Scenario.ok_endpoint) [] =
              Returns (["OK  http://127.0.0.1:8000/ok -> downloads/ok.bin";
                        String Str.LF "Summary: 1/1 succeeded"], 0))
    by (vm_compute; reflexivity).
  split; [exact H|].
  destruct (main_exit_code Py.model _ _ _ _ _ _ H) as (_ & _ & Hlen & _).
  exact Hlen.
Defined.



End CliFacts.
